(** * The foreach-mutation evaluator of pkg/engine/handlers/mutation/common.go

    A shallow embedding of [mutateForEach], [mutateElements],
    [buildRuleResponse] and [buildSuccessMessage], together with the
    collaborators they call, and the properties of the evaluation that the
    specification states. *)

From Stdlib Require Import Ascii String.
From stdpp Require Import base tactics option list strings sorting lexico pretty relations.

Set Warnings "-register-all".
Open Scope string_scope.
Open Scope list_scope.
Open Scope nat_scope.

(** ** Data model *)

(** engineapi.RuleStatus, restricted to the four outcomes the evaluator
    distinguishes. *)
Inductive RuleStatus : Type :=
  | RuleStatusPass
  | RuleStatusFail
  | RuleStatusError
  | RuleStatusSkip.

Global Instance RuleStatus_eq_dec : EqDecision RuleStatus.
Proof. solve_decision. Defined.

(** Untyped documents: the values of [interface{}] that the list evaluator
    produces and that resources are made of.  [JNull] is Go's [nil]. *)
Inductive JSON : Type :=
  | JNull
  | JBool (b : bool)
  | JNumber (n : Z)
  | JString (s : string)
  | JArray (l : list JSON)
  | JObject (m : list (string * JSON)).

(** [element == nil] *)
Definition isNil (element : JSON) : bool :=
  match element with JNull => true | _ => false end.

(** unstructured.Unstructured: [Object] is a map that may be nil. *)
Record Unstructured : Type := mkUnstructured {
  Object : option (list (string * JSON))
}.

(** The zero value [unstructured.Unstructured{}]. *)
Definition emptyUnstructured : Unstructured := {| Object := None |}.

Fixpoint lookupField (k : string) (m : list (string * JSON)) : option JSON :=
  match m with
  | [] => None
  | (k', v) :: m' => if decide (k = k') then Some v else lookupField k m'
  end.

(** The accessors [GetKind], [GetName] and [GetNamespace] read the string at
    [kind], [metadata.name] and [metadata.namespace]; a missing field, or one
    that is not a string, reads as the empty string. *)
Definition fieldString (v : option JSON) : string :=
  match v with Some (JString s) => s | _ => "" end.

Definition metadataField (k : string) (r : Unstructured) : string :=
  match Object r with
  | Some m =>
      match lookupField "metadata" m with
      | Some (JObject md) => fieldString (lookupField k md)
      | _ => ""
      end
  | None => ""
  end.

Definition GetKind (r : Unstructured) : string :=
  match Object r with
  | Some m => fieldString (lookupField "kind" m)
  | None => ""
  end.

Definition GetName (r : Unstructured) : string := metadataField "name" r.

Definition GetNamespace (r : Unstructured) : string := metadataField "namespace" r.

(** schema.GroupVersionResource *)
Record GroupVersionResource : Type := mkGVR {
  Group : string;
  Version : string;
  Resource : string
}.

(** resourceInfo, the working resource of a mutator. *)
Record resourceInfo : Type := mkResourceInfo {
  unstructured : Unstructured;
  subresource : string;
  parentResourceGVR : GroupVersionResource
}.

Definition withUnstructured (info : resourceInfo) (u : Unstructured) : resourceInfo :=
  {| unstructured := u;
     subresource := subresource info;
     parentResourceGVR := parentResourceGVR info |}.

(** Go's [error] values are carried by their text; [None] is the nil error. *)
Definition error : Type := string.

Inductive result (A : Type) : Type :=
  | Ok (a : A)
  | Err (err : error).
Arguments Ok {A} a.
Arguments Err {A} err.

(** kyvernov1.ForEachMutation.  The raw field that holds a nested foreach
    declaration is carried by what api.DeserializeJSONArray makes of it: the
    nested declarations, or the error of a document that does not
    deserialize. *)
Inductive ForEachMutation : Type := mkForEachMutation {
  List : string;
  Context : list string;
  AnyAllConditions : JSON;
  RawPatchStrategicMerge : option JSON;
  RawForEachMutation : option (result (list ForEachMutation))
}.

(** The part of kyvernov1.Rule that the evaluator reads: its name and the
    targets of its mutation. *)
Record Rule : Type := mkRule {
  Name : string;
  Targets : list string
}.

(** ** Outcomes *)

(** Modelled from the spec: mutate.Response is declared outside this file; the
    spec describes it as the outcome {status, patchedResource, patches,
    message}, and the source reads these four fields. *)
Record Response : Type := mkResponse {
  Status : RuleStatus;
  PatchedResource : Unstructured;
  Patches : list string;
  Message : string
}.

(** Modelled from the spec: mutate.NewResponse builds an outcome from its
    four arguments. *)
Definition NewResponse (status : RuleStatus) (resource : Unstructured)
    (patches : list string) (msg : string) : Response :=
  {| Status := status; PatchedResource := resource; Patches := patches; Message := msg |}.

(** How Go prints an error with the verb %v. *)
Definition errorText (err : option error) : string :=
  match err with Some e => e | None => "<nil>" end.

(** Modelled from the spec: mutate.NewErrorResponse is declared outside this
    file; the spec describes its result as an Error-status outcome carrying a
    descriptive message and the underlying cause, with no resource and no
    patches. *)
Definition NewErrorResponse (msg : string) (err : option error) : Response :=
  NewResponse RuleStatusError emptyUnstructured [] (msg +:+ ": " +:+ errorText err).

(** ** The variable context *)

(** Modelled from the spec: the JSON context is declared outside this file;
    the spec describes it as a stack-like variable store with checkpoint,
    restore, reset and add-resource.  The store holds the current document
    and a stack of saved documents. *)
Record JSONContext : Type := mkJSONContext {
  jsonRaw : JSON;
  jsonRawCheckpoints : list JSON
}.

Definition Checkpoint (c : JSONContext) : JSONContext :=
  {| jsonRaw := jsonRaw c; jsonRawCheckpoints := jsonRaw c :: jsonRawCheckpoints c |}.

Definition Restore (c : JSONContext) : JSONContext :=
  match jsonRawCheckpoints c with
  | [] => c
  | saved :: rest => {| jsonRaw := saved; jsonRawCheckpoints := rest |}
  end.

Definition Reset (c : JSONContext) : JSONContext :=
  match jsonRawCheckpoints c with
  | [] => c
  | saved :: _ => {| jsonRaw := saved; jsonRawCheckpoints := jsonRawCheckpoints c |}
  end.

Definition setRaw (c : JSONContext) (raw : JSON) : JSONContext :=
  {| jsonRaw := raw; jsonRawCheckpoints := jsonRawCheckpoints c |}.

(** ** What the evaluator emits *)

Inductive Event : Type :=
  (** engineutils.AddElementToContext was called for an element *)
  | ElementBound (nesting index : nat) (element : JSON)
  (** logger.Info("mutate.foreach.preconditions not met", "elementIndex", index) *)
  | InfoPreconditionsNotMet (index : nat)
  (** logger.Info("mutateResp.PatchedResource", "resource", r) *)
  | InfoPatchedResource (r : Unstructured)
  (** logger.Error(err, msg) *)
  | LoggedError (err : error) (msg : string).

(** The mutable world of one rule evaluation: the JSON context shared by the
    policy context and its copies, and what has been emitted so far, oldest
    first. *)
Record World : Type := mkWorld {
  jsonContext : JSONContext;
  trace : list Event
}.

Definition emit (ev : Event) (w : World) : World :=
  {| jsonContext := jsonContext w; trace := trace w ++ [ev] |}.

Definition onContext (g : JSONContext → JSONContext) (w : World) : World :=
  {| jsonContext := g (jsonContext w); trace := trace w |}.

Definition currentRaw (w : World) : JSON := jsonRaw (jsonContext w).

(** ** External collaborators *)

(** jsonpatch.JsonPatchOperation; the value is carried by its JSON text. *)
Record JsonPatchOperation : Type := mkPatch {
  Operation : string;
  Path : string;
  Value : option string
}.

Global Instance JsonPatchOperation_eq_dec : EqDecision JsonPatchOperation.
Proof. solve_decision. Defined.

(** The functions the evaluator calls and that live outside it.  Those whose
    only result is an error act on the context: they return the document they
    leave behind together with the error, if any. *)
Record Collaborators : Type := mkCollaborators {
  (** engineutils.EvaluateList(list, ctx) *)
  EvaluateList : string → JSON → result (list JSON);
  (** engineutils.AddElementToContext(policyContext, element, index, nesting, _) *)
  AddElementToContext : JSON → JSON → nat → nat → JSON * option error;
  (** f.contextLoader(ctx, foreach.Context, jsonContext) *)
  contextLoader : list string → JSON → JSON * option error;
  (** internal.CheckPreconditions(logger, jsonContext, conditions) *)
  CheckPreconditions : JSON → JSON → result bool;
  (** mutate.ForEach(name, foreach, policyContext, resource, element, logger) *)
  ForEach : string → ForEachMutation → JSON → Unstructured → JSON → Response;
  (** JSONContext().AddResource(object) *)
  AddResource : option (list (string * JSON)) → JSON → JSON * option error;
  (** json.Unmarshal(p, &jp) *)
  Unmarshal : string → result JsonPatchOperation;
  (** jp.MarshalJSON() *)
  MarshalJSON : JsonPatchOperation → result string;
  (** Whether the JSON context of policyContext.Copy() is the context of the
      original (a struct copy keeps the reference) or a detached snapshot. *)
  copySharesContext : bool
}.

(** ** The evaluator *)

(** forEachMutator.  Its logger and policy context are the [World]; its
    context loader is among the collaborators. *)
Record forEachMutator : Type := mkForEachMutator {
  rule : Rule;
  foreach : list ForEachMutation;
  resource : resourceInfo;
  nesting : nat
}.

Definition withResource (f : forEachMutator) (u : Unstructured) : forEachMutator :=
  {| rule := rule f;
     foreach := foreach f;
     resource := withUnstructured (resource f) u;
     nesting := nesting f |}.

(** A loop body either returns from the enclosing function or goes on to the
    next iteration with the loop's variables. *)
Inductive Flow (A : Type) : Type :=
  | Return (r : Response)
  | Continue (a : A).
Arguments Return {A} r.
Arguments Continue {A} a.

(** Modelled from the spec: engineutils.InvertedElement is declared outside
    this file; the spec describes it as putting the elements in reverse
    declared order. *)
Definition InvertedElement (elements : list JSON) : list JSON := rev elements.

(** The variables of the loop of [mutateForEach]: the mutator, whose resource
    the loop replaces, the count and the patches. *)
Record forEachVars : Type := mkForEachVars {
  mutator : forEachMutator;
  applyCount : nat;
  allPatches : list string
}.

(** The variables of the loop of [mutateElements]. *)
Record elementVars : Type := mkElementVars {
  patchedResource : resourceInfo;
  elementPatches : list string
}.

Section Evaluator.

Variable E : Collaborators.

(** A write to the JSON context of a copied policy context reaches the
    shared context when the copy kept the reference. *)
Definition writeThrough (raw : JSON) (w : World) : World :=
  if copySharesContext E then onContext (λ c, setRaw c raw) w else w.

(** [json.Unmarshal] of every patch, lines 136-142. *)
Fixpoint unmarshalPatches (ps : list string) : result (list JsonPatchOperation) :=
  match ps with
  | [] => Ok []
  | p :: ps' =>
      match Unmarshal E p with
      | Err err => Err err
      | Ok jp =>
          match unmarshalPatches ps' with
          | Err err => Err err
          | Ok jps => Ok (jp :: jps)
          end
      end
  end.

(** [MarshalJSON] of every sorted patch, lines 145-151. *)
Fixpoint marshalPatches (jps : list JsonPatchOperation) : result (list string) :=
  match jps with
  | [] => Ok []
  | jp :: jps' =>
      match MarshalJSON E jp with
      | Err err => Err err
      | Ok data =>
          match marshalPatches jps' with
          | Err err => Err err
          | Ok rest => Ok (data :: rest)
          end
      end
  end.

Section Elements.

(** patch.FilterAndSortPatches *)
Variable FilterAndSortPatches : list JsonPatchOperation → list JsonPatchOperation.

(** [m.mutateForEach(ctx)] of the mutator built for a nested foreach. *)
Variable nestedMutateForEach : list ForEachMutation → forEachMutator → World → Response * World.

(** Lines 135-152 of [mutateElements]: what follows the loop. *)
Definition composePatches (v : elementVars) : Response :=
  match unmarshalPatches (elementPatches v) with
  | Err err => NewErrorResponse "failed to convert patch" (Some err)
  | Ok sortedPatches =>
      match marshalPatches (FilterAndSortPatches sortedPatches) with
      | Err err => NewErrorResponse "failed to marshal patch" (Some err)
      | Ok finalPatches =>
          NewResponse RuleStatusPass (unstructured (patchedResource v)) finalPatches ""
      end
  end.

(** Lines 78-133 of [mutateElements]: the body of the loop. *)
Definition mutateElement (f : forEachMutator) (fe : ForEachMutation)
    (index : nat) (element : JSON) (v : elementVars) (w : World)
    : Flow elementVars * World :=
  if isNil element then (Continue v, w) else
  let w := onContext Reset w in
  let w := emit (ElementBound (nesting f) index element) w in
  let '(raw, err) := AddElementToContext E (currentRaw w) element index (nesting f) in
  let w := writeThrough raw w in
  match err with
  | Some err =>
      (Return (NewErrorResponse
         ("failed to add element to mutate.foreach[" +:+ pretty index +:+ "].context")
         (Some err)), w)
  | None =>
  let '(raw, err) := contextLoader E (Context fe) raw in
  let w := writeThrough raw w in
  match err with
  | Some err =>
      (Return (NewErrorResponse
         ("failed to load to mutate.foreach[" +:+ pretty index +:+ "].context")
         (Some err)), w)
  | None =>
  match CheckPreconditions E raw (AnyAllConditions fe) with
  | Err err =>
      (Return (NewErrorResponse
         ("failed to evaluate mutate.foreach[" +:+ pretty index +:+ "].preconditions")
         (Some err)), w)
  | Ok false => (Continue v, emit (InfoPreconditionsNotMet index) w)
  | Ok true =>
      let call : Flow Response * World :=
        match RawForEachMutation fe with
        | Some (Err err) =>
            (Return (NewErrorResponse "failed to deserialize foreach" (Some err)), w)
        | Some (Ok nestedForEach) =>
            let m := {| rule := rule f;
                        foreach := nestedForEach;
                        resource := patchedResource v;
                        nesting := nesting f + 1 |} in
            let '(mutateResp, w) := nestedMutateForEach nestedForEach m w in
            (Continue mutateResp, w)
        | None =>
            (Continue (ForEach E (Name (rule f)) fe raw
                         (unstructured (patchedResource v)) element), w)
        end in
      match call with
      | (Return r, w) => (Return r, w)
      | (Continue mutateResp, w) =>
          if decide (Status mutateResp = RuleStatusFail
                     ∨ Status mutateResp = RuleStatusError)
          then (Return mutateResp, w)
          else if decide (0 < length (Patches mutateResp))
          then (Continue
                  {| patchedResource :=
                       withUnstructured (patchedResource v) (PatchedResource mutateResp);
                     elementPatches := elementPatches v ++ Patches mutateResp |}, w)
          else (Continue v, w)
      end
  end end end.

(** Lines 77-134 of [mutateElements]: the loop, over the elements from
    position [index] on. *)
Fixpoint elementsLoop (f : forEachMutator) (fe : ForEachMutation)
    (index : nat) (elements : list JSON) (v : elementVars) (w : World)
    : Flow elementVars * World :=
  match elements with
  | [] => (Continue v, w)
  | element :: rest =>
      match mutateElement f fe index element v w with
      | (Return r, w) => (Return r, w)
      | (Continue v, w) => elementsLoop f fe (S index) rest v w
      end
  end.

(** The order in which [mutateElements] ranges over the elements, lines
    73-75. *)
Definition processingOrder (fe : ForEachMutation) (elements : list JSON) : list JSON :=
  match RawPatchStrategicMerge fe with
  | Some _ => InvertedElement elements
  | None => elements
  end.

(** [mutateElements], with the call of a nested evaluation abstracted.
    The deferred [Restore] runs on every return. *)
Definition mutateElementsWith (f : forEachMutator) (fe : ForEachMutation)
    (elements : list JSON) (w : World) : Response * World :=
  let w := onContext Checkpoint w in
  let v := {| patchedResource := resource f; elementPatches := [] |} in
  match elementsLoop f fe 0 (processingOrder fe elements) v w with
  | (Return r, w) => (r, onContext Restore w)
  | (Continue v, w) => (composePatches v, onContext Restore w)
  end.

End Elements.

Section ForEachLoop.

Variable mutateElements :
  ForEachMutation → forEachMutator → list JSON → World → Response * World.

(** Lines 35-56 of [mutateForEach]: the body of the loop. *)
Definition mutateSpec (fe : ForEachMutation) (s : forEachVars) (w : World)
    : Flow forEachVars * World :=
  match EvaluateList E (List fe) (currentRaw w) with
  | Err err =>
      (Return (NewErrorResponse
         ("failed to evaluate list " +:+ List fe +:+ ": " +:+ err) (Some err)), w)
  | Ok elements =>
      let '(mutateResp, w) := mutateElements fe (mutator s) elements w in
      if decide (Status mutateResp = RuleStatusError)
      then
        (* the [err] passed at line 43 is the one of line 35: nil on this path *)
        (Return (NewErrorResponse "failed to mutate elements" None), w)
      else if decide (Status mutateResp ≠ RuleStatusSkip)
      then
        let s :=
          if decide (0 < length (Patches mutateResp))
          then {| mutator := withResource (mutator s) (PatchedResource mutateResp);
                  applyCount := S (applyCount s);
                  allPatches := allPatches s ++ Patches mutateResp |}
          else {| mutator := mutator s;
                  applyCount := S (applyCount s);
                  allPatches := allPatches s |} in
        let w := emit (InfoPatchedResource (PatchedResource mutateResp)) w in
        let '(raw, err) :=
          AddResource E (Object (PatchedResource mutateResp)) (currentRaw w) in
        let w := onContext (λ c, setRaw c raw) w in
        let w :=
          match err with
          | Some err => emit (LoggedError err "failed to update resource in context") w
          | None => w
          end in
        (Continue s, w)
      else (Continue s, w)
  end.

(** The loop of [mutateForEach] over the declarations that remain. *)
Fixpoint mutateSpecs (fes : list ForEachMutation) (s : forEachVars) (w : World)
    : Flow forEachVars * World :=
  match fes with
  | [] => (Continue s, w)
  | fe :: rest =>
      match mutateSpec fe s w with
      | (Return r, w) => (Return r, w)
      | (Continue s, w) => mutateSpecs rest s w
      end
  end.

(** Lines 59-64 of [mutateForEach]: what follows the loop. *)
Definition forEachResponse (s : forEachVars) : Response :=
  let msg := pretty (applyCount s) +:+ " elements processed" in
  if decide (applyCount s = 0)
  then NewResponse RuleStatusSkip (unstructured (resource (mutator s))) (allPatches s) msg
  else NewResponse RuleStatusPass (unstructured (resource (mutator s))) (allPatches s) msg.

(** [mutateForEach] of the mutator [f] over the declarations [fes]. *)
Definition mutateForEachOver (fes : list ForEachMutation) (f : forEachMutator)
    (w : World) : Response * World :=
  match mutateSpecs fes {| mutator := f; applyCount := 0; allPatches := [] |} w with
  | (Return r, w) => (r, w)
  | (Continue s, w) => (forEachResponse s, w)
  end.

End ForEachLoop.

End Evaluator.

(** ** The patch composer *)

Module PatchComposer.

(** The container and the last token of a JSON Pointer: ["/a/b/3"] splits
    into ["/a/b"] and ["3"]. *)
Fixpoint splitPath (path : string) : option (string * string) :=
  match path with
  | "" => None
  | String c rest =>
      match splitPath rest with
      | Some (container, leaf) => Some (String c container, leaf)
      | None => if decide (c = "/"%char) then Some ("", rest) else None
      end
  end.

Fixpoint parseDigits (acc : N) (s : string) : option N :=
  match s with
  | "" => Some acc
  | String c rest =>
      match Ascii.is_nat c with
      | Some d => parseDigits (10 * acc + N.of_nat d) rest
      | None => None
      end
  end.

(** The array index a token denotes, if it is one. *)
Definition parseIndex (token : string) : option N :=
  match token with
  | "" => None
  | _ => parseDigits 0 token
  end.

(** The array an operation targets and the index it targets there. *)
Definition arrayTarget (p : JsonPatchOperation) : option (string * N) :=
  match splitPath (Path p) with
  | Some (container, leaf) =>
      match parseIndex leaf with
      | Some i => Some (container, i)
      | None => None
      end
  | None => None
  end.

(** Strings are ordered as the standard library orders them. *)
Global Instance string_lexico : Lexico string := λ s1 s2, String.le s1 s2 ∧ s1 ≠ s2.

Global Instance string_lexico_trichotomy : TrichotomyT (@lexico string _).
Proof.
  red; refine (λ s1 s2,
    match decide (s1 = s2) with
    | left Heq => inleft (right Heq)
    | right Hne =>
        match decide (String.le s1 s2) with
        | left Hle => inleft (left (conj Hle Hne))
        | right Hnle => inright _
        end
    end).
  split; [|congruence]. by destruct (total String.le s1 s2).
Defined.

Definition SortKey : Type := string * (string * (Z * (string * (bool * string)))).

Definition valueKey (v : option string) : bool * string :=
  match v with
  | None => (false, "")
  | Some s => (true, s)
  end.

(** The key of the deterministic order: operations are grouped by the array
    they target, or by their own path when they target no array; within a
    group by operation; "add" on one array by ascending index and "remove"
    on one array by descending index; what remains is decided by the path
    string and the value. *)
Definition sortKey (p : JsonPatchOperation) : SortKey :=
  match arrayTarget p with
  | Some (container, i) =>
      (container,
        (Operation p,
          ((if decide (Operation p = "remove") then (- Z.of_N i)%Z else Z.of_N i),
            (Path p, valueKey (Value p)))))
  | None =>
      (Path p, (Operation p, (0%Z, (Path p, valueKey (Value p)))))
  end.

(** The deterministic order on operations: [p] comes no later than [q]. *)
Definition patchLeb (p q : JsonPatchOperation) : bool :=
  match trichotomyT lexico (sortKey p) (sortKey q) with
  | inleft _ => true
  | inright _ => false
  end.

Definition patchLe (p q : JsonPatchOperation) : Prop := patchLeb p q = true.

Global Instance patchLe_dec : RelDecision patchLe.
Proof. intros p q. unfold patchLe. apply _. Defined.

(** Modelled from the spec: patch.FilterAndSortPatches is declared outside
    this file; the spec describes the composer as a deterministic
    de-duplication and ordering of the accumulated operations: operations
    are grouped, "add" operations on one array are in ascending index
    order, "remove" operations on one array in descending index order,
    operations on distinct object paths in the order of their path
    strings, and operations on the same path in the order the composer
    fixes, whatever the order they arrived in. *)
Definition FilterAndSortPatches (patches : list JsonPatchOperation)
    : list JsonPatchOperation :=
  merge_sort patchLe (remove_dups patches).

End PatchComposer.

(** ** Tying the recursion *)

(** [f.mutateElements(ctx, foreach, elements)] *)
Fixpoint mutateElements (E : Collaborators) (fe : ForEachMutation) (f : forEachMutator)
    (elements : list JSON) (w : World) {struct fe} : Response * World :=
  mutateElementsWith E PatchComposer.FilterAndSortPatches
    (mutateForEachOver E (mutateElements E)) f fe elements w.

(** [f.mutateForEach(ctx)] *)
Definition mutateForEach (E : Collaborators) (f : forEachMutator) (w : World)
    : Response * World :=
  mutateForEachOver E (mutateElements E) (foreach f) f w.

(** Induction over a declaration and the declarations nested in it. *)
Section NestedInduction.

Variable P : ForEachMutation → Prop.

Hypothesis step : ∀ fe,
  match RawForEachMutation fe with
  | Some (Ok nested) => Forall P nested
  | _ => True
  end → P fe.

Fixpoint ForEachMutation_nested_ind (fe : ForEachMutation) : P fe :=
  step fe
    match fe return
      match RawForEachMutation fe with
      | Some (Ok nested) => Forall P nested
      | _ => True
      end
    with
    | mkForEachMutation _ _ _ _ raw =>
        match raw return
          match raw with
          | Some (Ok nested) => Forall P nested
          | _ => True
          end
        with
        | Some (Ok nested) =>
            (fix all (l : list ForEachMutation) : Forall P l :=
               match l with
               | [] => @List.Forall_nil _ P
               | fe' :: l' =>
                   @List.Forall_cons _ P fe' l' (ForEachMutation_nested_ind fe') (all l')
               end) nested
        | _ => I
        end
    end.

End NestedInduction.

(** ** The response builder *)

(** Modelled from the spec: engineapi.RuleResponse and its constructors are
    declared outside this file; the spec describes the rule-level result as
    carrying the rule name, a message, a status, the composed patch set and,
    for rules with mutation targets, the patched-target reference
    (group-version-resource and subresource). *)
Inductive RuleType : Type := Mutation | Validation | Generation | ImageVerify.

Record PatchedTarget : Type := mkPatchedTarget {
  targetResource : Unstructured;
  targetGVR : GroupVersionResource;
  targetSubresource : string
}.

Record RuleResponse : Type := mkRuleResponse {
  responseName : string;
  responseRuleType : RuleType;
  responseMessage : string;
  responseStatus : RuleStatus;
  responsePatches : list string;
  responsePatchedTarget : option PatchedTarget
}.

Definition NewRuleResponse (name : string) (ruleType : RuleType) (msg : string)
    (status : RuleStatus) : RuleResponse :=
  {| responseName := name; responseRuleType := ruleType; responseMessage := msg;
     responseStatus := status; responsePatches := []; responsePatchedTarget := None |}.

Definition WithPatches (resp : RuleResponse) (patches : list string) : RuleResponse :=
  {| responseName := responseName resp; responseRuleType := responseRuleType resp;
     responseMessage := responseMessage resp; responseStatus := responseStatus resp;
     responsePatches := patches; responsePatchedTarget := responsePatchedTarget resp |}.

Definition WithPatchedTarget (resp : RuleResponse) (r : Unstructured)
    (gvr : GroupVersionResource) (sub : string) : RuleResponse :=
  {| responseName := responseName resp; responseRuleType := responseRuleType resp;
     responseMessage := responseMessage resp; responseStatus := responseStatus resp;
     responsePatches := responsePatches resp;
     responsePatchedTarget :=
       Some {| targetResource := r; targetGVR := gvr; targetSubresource := sub |} |}.

(** [buildSuccessMessage] *)
Definition buildSuccessMessage (r : Unstructured) : string :=
  match Object r with
  | None => "mutated resource"
  | Some _ =>
      if decide (GetNamespace r = "")
      then "mutated " +:+ GetKind r +:+ "/" +:+ GetName r
      else "mutated " +:+ GetKind r +:+ "/" +:+ GetName r
             +:+ " in namespace " +:+ GetNamespace r
  end.

(** [buildRuleResponse] *)
Definition buildRuleResponse (rule : Rule) (mutateResp : Response) (info : resourceInfo)
    : RuleResponse :=
  let message :=
    if decide (Status mutateResp = RuleStatusPass)
    then buildSuccessMessage (PatchedResource mutateResp)
    else Message mutateResp in
  let resp := NewRuleResponse (Name rule) Mutation message (Status mutateResp) in
  if decide (Status mutateResp = RuleStatusPass)
  then
    let resp := WithPatches resp (Patches mutateResp) in
    if decide (length (Targets rule) ≠ 0)
    then WithPatchedTarget resp (PatchedResource mutateResp)
           (parentResourceGVR info) (subresource info)
    else resp
  else resp.

(** ** Observations on worlds and traces *)

(** The saved documents of a world. *)
Definition checkpoints (w : World) : list JSON := jsonRawCheckpoints (jsonContext w).

(** The elements bound at nesting depth [n] according to a trace, with the
    positions they were bound at, oldest first. *)
Definition boundAt (n : nat) (t : list Event) : list (nat * JSON) :=
  omap (λ ev,
    match ev with
    | ElementBound n' index element =>
        if decide (n' = n) then Some (index, element) else None
    | _ => None
    end) t.

(** The elements of a list that are not nil, with their positions counted
    from [index]. *)
Fixpoint boundElements (index : nat) (elements : list JSON) : list (nat * JSON) :=
  match elements with
  | [] => []
  | element :: rest =>
      if isNil element then boundElements (S index) rest
      else (index, element) :: boundElements (S index) rest
  end.

(** The loop variables [mutateForEach] starts from. *)
Definition initialVars (f : forEachMutator) : forEachVars :=
  {| mutator := f; applyCount := 0; allPatches := [] |}.

(** The loop of [mutateElements] with the recursion tied. *)
Definition elementsLoopOf (E : Collaborators) :=
  elementsLoop E (mutateForEachOver E (mutateElements E)).

(** The loop of [mutateForEach] with the recursion tied. *)
Definition mutateSpecsOf (E : Collaborators) := mutateSpecs E (mutateElements E).

(** The collaborators [E], with an [AddResource] that leaves the same
    document and reports no error. *)
Definition silenceAddResource (E : Collaborators) : Collaborators :=
  {| EvaluateList := EvaluateList E;
     AddElementToContext := AddElementToContext E;
     contextLoader := contextLoader E;
     CheckPreconditions := CheckPreconditions E;
     ForEach := ForEach E;
     AddResource := λ object raw, ((AddResource E object raw).1, None);
     Unmarshal := Unmarshal E;
     MarshalJSON := MarshalJSON E;
     copySharesContext := copySharesContext E |}.

(** The events of a trace that are not logged errors. *)
Definition withoutLoggedErrors (t : list Event) : list Event :=
  omap (λ ev, match ev with LoggedError _ _ => None | _ => Some ev end) t.

(** A per-declaration evaluation is quiet below its depth when it binds no
    element at a depth less than that of its mutator. *)
Definition quietBelow
    (mutElems : ForEachMutation → forEachMutator → list JSON → World → Response * World)
    (fe : ForEachMutation) : Prop :=
  ∀ f elements w k, k < nesting f →
    boundAt k (trace (mutElems fe f elements w).2) = boundAt k (trace w).

(** The world in which the preconditions of an element are evaluated, when
    binding the element left the document [raw1] and loading the declared
    context left [raw2]. *)
Definition worldAtPreconditions (E : Collaborators) (f : forEachMutator)
    (index : nat) (element : JSON) (w : World) (raw1 raw2 : JSON) : World :=
  writeThrough E raw2 (writeThrough E raw1
    (emit (ElementBound (nesting f) index element) (onContext Reset w))).

(** The outcome of an element: what the nested evaluation or the
    single-element mutator returns for it. *)
Definition elementOutcome (E : Collaborators)
    (nested : list ForEachMutation → forEachMutator → World → Response * World)
    (f : forEachMutator) (fe : ForEachMutation) (index : nat) (element : JSON)
    (v : elementVars) (w : World) (raw1 raw2 : JSON) : option Response :=
  match RawForEachMutation fe with
  | Some (Err _) => None
  | Some (Ok nestedForEach) =>
      Some (nested nestedForEach
              {| rule := rule f; foreach := nestedForEach;
                 resource := patchedResource v; nesting := nesting f + 1 |}
              (worldAtPreconditions E f index element w raw1 raw2)).1
  | None =>
      Some (ForEach E (Name (rule f)) fe raw2 (unstructured (patchedResource v)) element)
  end.

(** The outcomes of the declarations the loop of [mutateForEach] evaluates,
    in order, up to the declaration at which it returns. *)
Fixpoint declarationOutcomes (E : Collaborators)
    (mutElems : ForEachMutation → forEachMutator → list JSON → World → Response * World)
    (fes : list ForEachMutation) (s : forEachVars) (w : World) : list Response :=
  match fes with
  | [] => []
  | fe :: rest =>
      match EvaluateList E (List fe) (currentRaw w) with
      | Err _ => []
      | Ok elements =>
          (mutElems fe (mutator s) elements w).1 ::
          match mutateSpec E mutElems fe s w with
          | (Continue s', w') => declarationOutcomes E mutElems rest s' w'
          | (Return _, _) => []
          end
      end
  end.

(** Two worlds with the same context whose traces differ in logged errors
    only. *)
Definition similar (w w' : World) : Prop :=
  jsonContext w = jsonContext w'
  ∧ withoutLoggedErrors (trace w) = withoutLoggedErrors (trace w').

(** Two runs with the same result that end in similar worlds. *)
Definition agree {A : Type} (x x' : A * World) : Prop :=
  x.1 = x'.1 ∧ similar x.2 x'.2.

(** Two per-declaration evaluations that agree on a declaration. *)
Definition agreeOn
    (mutElems mutElems' :
       ForEachMutation → forEachMutator → list JSON → World → Response * World)
    (fe : ForEachMutation) : Prop :=
  ∀ f elements w w', similar w w' →
    agree (mutElems fe f elements w) (mutElems' fe f elements w').

(** ** A concrete evaluation *)

Module Examples.

(** Patches are written as words: an operation, a path and, when there is
    one, a value. *)
Definition parsePatch (p : string) : result JsonPatchOperation :=
  match String.words p with
  | [op; path] => Ok {| Operation := op; Path := path; Value := None |}
  | [op; path; value] => Ok {| Operation := op; Path := path; Value := Some value |}
  | _ => Err ("malformed patch " +:+ p)
  end.

Definition printPatch (jp : JsonPatchOperation) : result string :=
  match Value jp with
  | None => Ok (Operation jp +:+ " " +:+ Path jp)
  | Some value =>
      if decide (value = "") then Err "empty value"
      else Ok (Operation jp +:+ " " +:+ Path jp +:+ " " +:+ value)
  end.

Definition label (name : string) (u : Unstructured) : Unstructured :=
  {| Object := Some ((name, JBool true) :: default [] (Object u)) |}.

(** Collaborators of a rule that labels a pod once per container. *)
Definition demo : Collaborators :=
  {| EvaluateList := λ list raw,
       if decide (list = "request.object.spec.containers")
       then Ok [JString "nginx"; JNull; JString "sidecar"]
       else if decide (list = "request.object.spec.volumes")
       then Ok []
       else Err ("unknown key " +:+ list);
     AddElementToContext := λ raw element index nesting,
       (JObject [("element", element); ("outer", raw)], None);
     contextLoader := λ entries raw,
       match entries with
       | "unreachable" :: _ => (raw, Some "connection refused")
       | _ => (raw, None)
       end;
     CheckPreconditions := λ raw conditions,
       match conditions with
       | JNull => Ok true
       | JBool b => Ok b
       | JString name =>
           match raw with
           | JObject (("element", JString s) :: _) => Ok (bool_decide (s = name))
           | _ => Ok false
           end
       | _ => Err "invalid conditions"
       end;
     ForEach := λ name fe raw u element,
       match element with
       | JString s =>
           NewResponse RuleStatusPass (label s u) ["add /metadata/labels/" +:+ s +:+ " true"] ""
       | _ => NewResponse RuleStatusSkip u [] "no patches applied"
       end;
     AddResource := λ object raw,
       match object with
       | Some fields => (JObject [("request", JObject fields)], None)
       | None => (raw, Some "nil resource")
       end;
     Unmarshal := parsePatch;
     MarshalJSON := printPatch;
     copySharesContext := true |}.

(** The same collaborators, with a mutator that rejects the sidecar. *)
Definition rejecting : Collaborators :=
  {| EvaluateList := EvaluateList demo;
     AddElementToContext := AddElementToContext demo;
     contextLoader := contextLoader demo;
     CheckPreconditions := CheckPreconditions demo;
     ForEach := λ name fe raw u element,
       match element with
       | JString "sidecar" => NewResponse RuleStatusFail u [] "sidecars are not allowed"
       | _ => ForEach demo name fe raw u element
       end;
     AddResource := AddResource demo;
     Unmarshal := Unmarshal demo;
     MarshalJSON := MarshalJSON demo;
     copySharesContext := copySharesContext demo |}.

Definition containers : ForEachMutation :=
  {| List := "request.object.spec.containers"; Context := [];
     AnyAllConditions := JNull; RawPatchStrategicMerge := None;
     RawForEachMutation := None |}.

Definition containersStrategicMerge : ForEachMutation :=
  {| List := "request.object.spec.containers"; Context := [];
     AnyAllConditions := JNull; RawPatchStrategicMerge := Some (JObject []);
     RawForEachMutation := None |}.


Definition invalidConditions : ForEachMutation :=
  {| List := "request.object.spec.containers"; Context := [];
     AnyAllConditions := JNumber 1; RawPatchStrategicMerge := None;
     RawForEachMutation := None |}.

Definition unreachable : ForEachMutation :=
  {| List := "request.object.spec.containers"; Context := ["unreachable"];
     AnyAllConditions := JNull; RawPatchStrategicMerge := None;
     RawForEachMutation := None |}.

Definition volumes : ForEachMutation :=
  {| List := "request.object.spec.volumes"; Context := [];
     AnyAllConditions := JNull; RawPatchStrategicMerge := None;
     RawForEachMutation := None |}.

Definition missing : ForEachMutation :=
  {| List := "request.object.spec.missing"; Context := [];
     AnyAllConditions := JNull; RawPatchStrategicMerge := None;
     RawForEachMutation := None |}.

Definition pod : Unstructured :=
  {| Object := Some [("kind", JString "Pod");
                     ("metadata", JObject [("name", JString "web");
                                           ("namespace", JString "prod")])] |}.

Definition podInfo : resourceInfo :=
  {| unstructured := pod; subresource := "";
     parentResourceGVR := {| Group := ""; Version := "v1"; Resource := "pods" |} |}.

Definition addLabels : Rule := {| Name := "add-labels"; Targets := [] |}.

Definition mutatorOf (fes : list ForEachMutation) : forEachMutator :=
  {| rule := addLabels; foreach := fes; resource := podInfo; nesting := 0 |}.

Definition admission : World :=
  {| jsonContext :=
       {| jsonRaw := JObject [("request", JObject (default [] (Object pod)))];
          jsonRawCheckpoints := [] |};
     trace := [] |}.

End Examples.


(** ** Further observations *)

(** The resource an evaluation holds after a sequence of outcomes, starting
    from [u]: each outcome that has patches replaces it (lines 48-51 and
    130-133). *)
Definition lastPatched (u : Unstructured) (outcomes : list Response) : Unstructured :=
  foldl (λ u r, if decide (0 < length (Patches r)) then PatchedResource r else u)
    u outcomes.

(** The loop variables of [mutateElements] after an element with outcome
    [mutateResp], lines 130-133. *)
Definition adopt (v : elementVars) (mutateResp : Response) : elementVars :=
  if decide (0 < length (Patches mutateResp))
  then {| patchedResource :=
            withUnstructured (patchedResource v) (PatchedResource mutateResp);
          elementPatches := elementPatches v ++ Patches mutateResp |}
  else v.

Module NestedExamples.

(** A declaration that, for every container, ranges over the containers
    again. *)
Definition perContainer : ForEachMutation :=
  {| List := "request.object.spec.containers"; Context := [];
     AnyAllConditions := JNull; RawPatchStrategicMerge := None;
     RawForEachMutation := Some (Ok [Examples.containers]) |}.

(** A declaration whose nested declarations do not deserialize. *)
Definition garbled : ForEachMutation :=
  {| List := "request.object.spec.containers"; Context := [];
     AnyAllConditions := JNull; RawPatchStrategicMerge := None;
     RawForEachMutation := Some (Err "unexpected end of JSON input") |}.


(** A mutator one level down. *)
Definition inner (fes : list ForEachMutation) : forEachMutator :=
  {| rule := Examples.addLabels; foreach := fes; resource := Examples.podInfo;
     nesting := 1 |}.

(** A rule with a target. *)
Definition targeted : Rule := {| Name := "label-target"; Targets := ["ConfigMap"] |}.

End NestedExamples.

(** * Properties *)

(** ** The deterministic order and the composer *)

Module PatchComposerFacts.
Import PatchComposer.

Global Instance string_lexico_po : StrictOrder (@lexico string _).
Proof.
  split.
  - intros s [_ Hne]. by apply Hne.
  - intros s1 s2 s3 [H12 Hne12] [H23 Hne23]. split.
    + by trans s2.
    + intros ->. apply Hne12. by apply (anti_symm String.le).
Qed.

Lemma valueKey_inj v1 v2 : valueKey v1 = valueKey v2 → v1 = v2.
Proof. destruct v1, v2; simpl; congruence. Qed.

Lemma sortKey_inj p q : sortKey p = sortKey q → p = q.
Proof.
  destruct p as [o1 p1 v1], q as [o2 p2 v2]. unfold sortKey.
  destruct (arrayTarget _) as [[??]|], (arrayTarget _) as [[??]|]; simpl;
    intros H; simplify_eq; f_equal; by apply valueKey_inj.
Qed.

Lemma patchLe_spec p q :
  patchLe p q ↔ sortKey p = sortKey q ∨ lexico (sortKey p) (sortKey q).
Proof.
  unfold patchLe, patchLeb.
  destruct (trichotomyT lexico (sortKey p) (sortKey q)) as [[Hlt|Heq]|Hgt].
  - naive_solver.
  - naive_solver.
  - split; [done|]. intros [Heq|Hlt].
    + rewrite Heq in Hgt. by apply (irreflexivity lexico) in Hgt.
    + exfalso. apply (irreflexivity lexico (sortKey p)). by trans (sortKey q).
Qed.

Global Instance patchLe_total : Total patchLe.
Proof.
  intros p q. rewrite !patchLe_spec.
  destruct (trichotomyT lexico (sortKey p) (sortKey q)) as [[?|?]|?]; auto.
Qed.

Global Instance patchLe_trans : Transitive patchLe.
Proof.
  intros p q r. rewrite !patchLe_spec.
  intros [->|H1] [<-|H2]; auto. right. by trans (sortKey q).
Qed.

Global Instance patchLe_antisymm : AntiSymm (=) patchLe.
Proof.
  intros p q. rewrite !patchLe_spec. intros [H1|H1] [H2|H2].
  - by apply sortKey_inj.
  - by apply sortKey_inj.
  - by apply sortKey_inj.
  - exfalso. apply (irreflexivity lexico (sortKey p)). by trans (sortKey q).
Qed.

Lemma FilterAndSortPatches_sorted l : Sorted patchLe (FilterAndSortPatches l).
Proof. apply (Sorted_merge_sort patchLe). Qed.

Lemma FilterAndSortPatches_NoDup l : NoDup (FilterAndSortPatches l).
Proof.
  unfold FilterAndSortPatches. rewrite merge_sort_Permutation. apply NoDup_remove_dups.
Qed.

Lemma FilterAndSortPatches_elem_of l p : p ∈ FilterAndSortPatches l ↔ p ∈ l.
Proof.
  unfold FilterAndSortPatches. rewrite merge_sort_Permutation. apply elem_of_remove_dups.
Qed.

(** The composed sequence depends on the set of operations only. *)
Lemma FilterAndSortPatches_set l1 l2 :
  (∀ p, p ∈ l1 ↔ p ∈ l2) → FilterAndSortPatches l1 = FilterAndSortPatches l2.
Proof.
  intros Hset. apply (Sorted_unique patchLe); try apply FilterAndSortPatches_sorted.
  apply NoDup_Permutation; try apply FilterAndSortPatches_NoDup.
  intros p. rewrite !FilterAndSortPatches_elem_of. apply Hset.
Qed.

Lemma FilterAndSortPatches_Permutation l1 l2 :
  l1 ≡ₚ l2 → FilterAndSortPatches l1 = FilterAndSortPatches l2.
Proof. intros H. apply FilterAndSortPatches_set. intros p. by rewrite H. Qed.

Lemma FilterAndSortPatches_idemp l :
  FilterAndSortPatches (FilterAndSortPatches l) = FilterAndSortPatches l.
Proof. apply FilterAndSortPatches_set. intros p. apply FilterAndSortPatches_elem_of. Qed.

End PatchComposerFacts.

(** ** The recursion *)

Lemma mutateElements_unfold E fe f elements w :
  mutateElements E fe f elements w =
  mutateElementsWith E PatchComposer.FilterAndSortPatches
    (mutateForEachOver E (mutateElements E)) f fe elements w.
Proof. by destruct fe. Qed.

Lemma elementsLoop_app E nested f fe index l1 l2 v w :
  elementsLoop E nested f fe index (l1 ++ l2) v w =
  match elementsLoop E nested f fe index l1 v w with
  | (Return r, w') => (Return r, w')
  | (Continue v', w') => elementsLoop E nested f fe (index + length l1) l2 v' w'
  end.
Proof.
  revert index v w. induction l1 as [|e l1 IH]; intros index v w; simpl.
  - by rewrite Nat.add_0_r.
  - destruct (mutateElement E nested f fe index e v w) as [[r|v'] w']; [done|].
    rewrite IH. by replace (S index + length l1) with (index + S (length l1)) by lia.
Qed.

Lemma mutateSpecs_app E mutElems l1 l2 s w :
  mutateSpecs E mutElems (l1 ++ l2) s w =
  match mutateSpecs E mutElems l1 s w with
  | (Return r, w') => (Return r, w')
  | (Continue s', w') => mutateSpecs E mutElems l2 s' w'
  end.
Proof.
  revert s w. induction l1 as [|fe l1 IH]; intros s w; simpl; [done|].
  by destruct (mutateSpec E mutElems fe s w) as [[r|s'] w'].
Qed.

(** ** The checkpoint discipline *)

Lemma checkpoints_Reset w : checkpoints (onContext Reset w) = checkpoints w.
Proof.
  by destruct w as [[raw [|saved stack]] t].
Qed.

Lemma checkpoints_emit ev w : checkpoints (emit ev w) = checkpoints w.
Proof. done. Qed.

Lemma checkpoints_setRaw raw w :
  checkpoints (onContext (λ c, setRaw c raw) w) = checkpoints w.
Proof. done. Qed.

Lemma checkpoints_writeThrough E raw w :
  checkpoints (writeThrough E raw w) = checkpoints w.
Proof. unfold writeThrough. destruct (copySharesContext E); reflexivity. Qed.

Lemma Restore_Checkpoint c : Restore (Checkpoint c) = c.
Proof. by destruct c. Qed.

Section ElementsCheckpoints.

Variable E : Collaborators.
Variable F : list JsonPatchOperation → list JsonPatchOperation.
Variable nested : list ForEachMutation → forEachMutator → World → Response * World.
Variable fe : ForEachMutation.

Hypothesis nested_checkpoints : ∀ fes m w,
  RawForEachMutation fe = Some (Ok fes) →
  checkpoints (nested fes m w).2 = checkpoints w.

Lemma mutateElement_checkpoints f index element v w :
  checkpoints (mutateElement E nested f fe index element v w).2 = checkpoints w.
Proof.
  unfold mutateElement.
  destruct (isNil element); [done|].
  destruct (AddElementToContext E _ _ _ _) as [raw1 [err1|]]; simpl.
  { by rewrite checkpoints_writeThrough, checkpoints_emit, checkpoints_Reset. }
  destruct (contextLoader E _ _) as [raw2 [err2|]]; simpl.
  { by rewrite !checkpoints_writeThrough, checkpoints_emit, checkpoints_Reset. }
  set (w2 := writeThrough E raw2 _).
  assert (checkpoints w2 = checkpoints w) as Hw2.
  { subst w2. by rewrite !checkpoints_writeThrough, checkpoints_emit, checkpoints_Reset. }
  destruct (CheckPreconditions E _ _) as [[|]|err3]; simpl; [|done..].
  destruct (RawForEachMutation fe) as [[fes|err4]|] eqn:Hraw; simpl.
  - specialize (nested_checkpoints fes
      {| rule := rule f; foreach := fes; resource := patchedResource v;
         nesting := nesting f + 1 |} w2 eq_refl).
    destruct (nested fes _ w2) as [mutateResp w3]; simpl in *.
    rewrite <- Hw2, <- nested_checkpoints.
    by repeat case_decide.
  - done.
  - by repeat case_decide.
Qed.

Lemma elementsLoop_checkpoints f index elements v w :
  checkpoints (elementsLoop E nested f fe index elements v w).2 = checkpoints w.
Proof.
  revert index v w. induction elements as [|e rest IH]; intros index v w; simpl; [done|].
  pose proof (mutateElement_checkpoints f index e v w) as H.
  destruct (mutateElement E nested f fe index e v w) as [[r|v'] w']; simpl in *; [done|].
  by rewrite IH.
Qed.

(** Whatever way [mutateElements] returns, the context is the one it was
    called with. *)
Lemma mutateElementsWith_context f elements w :
  jsonContext (mutateElementsWith E F nested f fe elements w).2 = jsonContext w.
Proof.
  unfold mutateElementsWith.
  pose proof (elementsLoop_checkpoints f 0 (processingOrder fe elements)
    {| patchedResource := resource f; elementPatches := [] |}
    (onContext Checkpoint w)) as H.
  destruct (elementsLoop E nested f fe 0 _ _ _) as [[r|v'] w']; simpl in *;
    unfold checkpoints in H; simpl in H;
    unfold Restore; rewrite H; by destruct w as [[raw stack] t].
Qed.

End ElementsCheckpoints.

Section SpecsCheckpoints.

Variable E : Collaborators.
Variable mutElems : ForEachMutation → forEachMutator → list JSON → World → Response * World.

Lemma mutateSpec_checkpoints fe s w :
  (∀ f elements w', jsonContext (mutElems fe f elements w').2 = jsonContext w') →
  checkpoints (mutateSpec E mutElems fe s w).2 = checkpoints w.
Proof.
  intros Hctx. unfold mutateSpec.
  destruct (EvaluateList E _ _) as [elements|err]; [|done].
  specialize (Hctx (mutator s) elements w).
  destruct (mutElems fe (mutator s) elements w) as [mutateResp w1]; simpl in *.
  unfold checkpoints. rewrite <- Hctx.
  case_decide; [done|]. case_decide; [|done].
  destruct (AddResource E _ _) as [raw [err|]]; done.
Qed.

Lemma mutateSpecs_checkpoints fes s w :
  Forall (λ fe, ∀ f elements w',
    jsonContext (mutElems fe f elements w').2 = jsonContext w') fes →
  checkpoints (mutateSpecs E mutElems fes s w).2 = checkpoints w.
Proof.
  intros Hall. revert s w.
  induction Hall as [|fe rest Hfe _ IH]; intros s w; simpl; [done|].
  pose proof (mutateSpec_checkpoints fe s w Hfe) as H.
  destruct (mutateSpec E mutElems fe s w) as [[r|s'] w']; simpl in *; [done|].
  by rewrite IH.
Qed.

Lemma mutateForEachOver_checkpoints fes f w :
  Forall (λ fe, ∀ f elements w',
    jsonContext (mutElems fe f elements w').2 = jsonContext w') fes →
  checkpoints (mutateForEachOver E mutElems fes f w).2 = checkpoints w.
Proof.
  intros Hall. unfold mutateForEachOver.
  pose proof (mutateSpecs_checkpoints fes
    {| mutator := f; applyCount := 0; allPatches := [] |} w Hall) as H.
  by destruct (mutateSpecs E mutElems fes _ w) as [[r|s'] w'].
Qed.

End SpecsCheckpoints.

Lemma mutateElements_context E fe :
  ∀ f elements w, jsonContext (mutateElements E fe f elements w).2 = jsonContext w.
Proof.
  induction fe as [fe IH] using ForEachMutation_nested_ind.
  intros f elements w. rewrite mutateElements_unfold.
  apply mutateElementsWith_context.
  intros fes m w' Hraw. rewrite Hraw in IH.
  by apply mutateForEachOver_checkpoints.
Qed.

Lemma mutateForEach_checkpoints E f w :
  checkpoints (mutateForEach E f w).2 = checkpoints w.
Proof.
  apply mutateForEachOver_checkpoints, Forall_forall.
  intros fe _. apply mutateElements_context.
Qed.

(** Once a checkpoint is stored, the loop does not depend on the document
    the context currently holds: every element starts from the checkpoint. *)
Lemma elementsLoop_from_checkpoint E nested f fe index elements v
    raw raw' saved stack t :
  let w := {| jsonContext := {| jsonRaw := raw; jsonRawCheckpoints := saved :: stack |};
              trace := t |} in
  let w' := {| jsonContext := {| jsonRaw := raw'; jsonRawCheckpoints := saved :: stack |};
               trace := t |} in
  (elementsLoop E nested f fe index elements v w).1
  = (elementsLoop E nested f fe index elements v w').1
  ∧ onContext Restore (elementsLoop E nested f fe index elements v w).2
    = onContext Restore (elementsLoop E nested f fe index elements v w').2.
Proof.
  revert index v. induction elements as [|e rest IH]; intros index v; simpl; [done|].
  unfold mutateElement. destruct (isNil e); [apply IH|]. done.
Qed.

(** ** The order of processing *)

Lemma boundAt_app n t1 t2 : boundAt n (t1 ++ t2) = boundAt n t1 ++ boundAt n t2.
Proof. apply omap_app. Qed.

Lemma trace_writeThrough E raw w : trace (writeThrough E raw w) = trace w.
Proof. unfold writeThrough. destruct (copySharesContext E); reflexivity. Qed.

Lemma boundElements_singleton index e :
  boundElements index [e] = if isNil e then [] else [(index, e)].
Proof. simpl. by destruct (isNil e). Qed.

Lemma boundElements_cons index e rest :
  boundElements index (e :: rest)
  = boundElements index [e] ++ boundElements (S index) rest.
Proof. simpl. by destruct (isNil e). Qed.

(** A loop body that returns does so with a failure or an error. *)
Lemma mutateElement_Return E nested f fe index element v w r :
  (mutateElement E nested f fe index element v w).1 = Return r →
  Status r = RuleStatusFail ∨ Status r = RuleStatusError.
Proof.
  unfold mutateElement.
  destruct (isNil element); [done|].
  destruct (AddElementToContext E _ _ _ _) as [raw1 [err1|]]; simpl.
  { intros [= <-]. by right. }
  destruct (contextLoader E _ _) as [raw2 [err2|]]; simpl.
  { intros [= <-]. by right. }
  destruct (CheckPreconditions E _ _) as [[|]|err3]; simpl; [|done|].
  - destruct (RawForEachMutation fe) as [[fes|err4]|]; simpl.
    + destruct (nested fes _ _) as [mutateResp w3]; simpl.
      repeat case_decide; simpl; by intros [= <-].
    + intros [= <-]. by right.
    + repeat case_decide; simpl; by intros [= <-].
  - intros [= <-]. by right.
Qed.

Lemma elementsLoop_Return E nested f fe index elements v w r :
  (elementsLoop E nested f fe index elements v w).1 = Return r →
  Status r = RuleStatusFail ∨ Status r = RuleStatusError.
Proof.
  revert index v w. induction elements as [|e rest IH]; intros index v w; simpl; [done|].
  pose proof (mutateElement_Return E nested f fe index e v w) as He.
  destruct (mutateElement E nested f fe index e v w) as [[r'|v'] w']; simpl in *.
  - intros [= ->]. by apply He.
  - apply IH.
Qed.

Lemma composePatches_status E F v :
  Status (composePatches E F v) = RuleStatusPass
  ∨ Status (composePatches E F v) = RuleStatusError.
Proof.
  unfold composePatches.
  destruct (unmarshalPatches E _); [|by right].
  destruct (marshalPatches E _); [by left|by right].
Qed.

(** [mutateElements] returns Pass, Fail or Error, never Skip. *)
Lemma mutateElementsWith_status E F nested f fe elements w :
  Status (mutateElementsWith E F nested f fe elements w).1 ≠ RuleStatusSkip.
Proof.
  unfold mutateElementsWith.
  pose proof (elementsLoop_Return E nested f fe 0 (processingOrder fe elements)
    {| patchedResource := resource f; elementPatches := [] |}
    (onContext Checkpoint w)) as Hret.
  destruct (elementsLoop E nested f fe 0 _ _ _) as [[r|v'] w']; simpl in *.
  - destruct (Hret r eq_refl); congruence.
  - destruct (composePatches_status E F v'); congruence.
Qed.

Section ElementsTrace.

Variable E : Collaborators.
Variable F : list JsonPatchOperation → list JsonPatchOperation.
Variable nested : list ForEachMutation → forEachMutator → World → Response * World.
Variable fe : ForEachMutation.

Hypothesis nested_boundAt : ∀ fes m w k,
  RawForEachMutation fe = Some (Ok fes) →
  k < nesting m →
  boundAt k (trace (nested fes m w).2) = boundAt k (trace w).

Lemma mutateElement_boundAt f index element v w k :
  k ≤ nesting f →
  boundAt k (trace (mutateElement E nested f fe index element v w).2)
  = boundAt k (trace w)
    ++ (if decide (nesting f = k) then boundElements index [element] else []).
Proof.
  intros Hk. rewrite boundElements_singleton. unfold mutateElement.
  destruct (isNil element).
  { simpl. case_decide; by rewrite app_nil_r. }
  set (w1 := emit _ (onContext Reset w)).
  assert (boundAt k (trace w1) = boundAt k (trace w)
    ++ (if decide (nesting f = k) then [(index, element)] else [])) as <-.
  { subst w1. simpl. rewrite boundAt_app. f_equal. simpl. by repeat case_decide. }
  clearbody w1.
  destruct (AddElementToContext E _ _ _ _) as [raw1 [err1|]]; simpl.
  { by rewrite trace_writeThrough. }
  destruct (contextLoader E _ _) as [raw2 [err2|]]; simpl.
  { by rewrite !trace_writeThrough. }
  set (w2 := writeThrough E raw2 _).
  assert (trace w2 = trace w1) as Hw2.
  { subst w2. by rewrite !trace_writeThrough. }
  clearbody w2.
  destruct (CheckPreconditions E _ _) as [[|]|err3]; simpl.
  - destruct (RawForEachMutation fe) as [[fes|err4]|] eqn:Hraw; simpl.
    + specialize (nested_boundAt fes
        {| rule := rule f; foreach := fes; resource := patchedResource v;
           nesting := nesting f + 1 |} w2 k eq_refl).
      destruct (nested fes _ w2) as [mutateResp w3]; simpl in *.
      rewrite <- Hw2, <- nested_boundAt by lia.
      by repeat case_decide.
    + by rewrite Hw2.
    + rewrite <- Hw2. by repeat case_decide.
  - rewrite boundAt_app, Hw2. simpl. by rewrite app_nil_r.
  - by rewrite Hw2.
Qed.

Lemma elementsLoop_boundAt_below f index elements v w k :
  k < nesting f →
  boundAt k (trace (elementsLoop E nested f fe index elements v w).2)
  = boundAt k (trace w).
Proof.
  intros Hk. revert index v w.
  induction elements as [|e rest IH]; intros index v w; simpl; [done|].
  pose proof (mutateElement_boundAt f index e v w k) as H.
  destruct (mutateElement E nested f fe index e v w) as [[r|v'] w']; simpl in *.
  - rewrite H by lia. case_decide; [lia|]. by rewrite app_nil_r.
  - rewrite IH, H by lia. case_decide; [lia|]. by rewrite app_nil_r.
Qed.

Lemma elementsLoop_boundAt f index elements v w :
  ∃ processed,
    boundAt (nesting f) (trace (elementsLoop E nested f fe index elements v w).2)
    = boundAt (nesting f) (trace w) ++ processed
    ∧ processed `prefix_of` boundElements index elements
    ∧ (∀ v', (elementsLoop E nested f fe index elements v w).1 = Continue v' →
             processed = boundElements index elements).
Proof.
  revert index v w.
  induction elements as [|e rest IH]; intros index v w.
  { exists []. simpl. by rewrite app_nil_r. }
  pose proof (mutateElement_boundAt f index e v w (nesting f)) as H.
  rewrite decide_True in H by done. specialize (H ltac:(lia)).
  rewrite (boundElements_cons index e rest).
  simpl elementsLoop.
  destruct (mutateElement E nested f fe index e v w) as [[r|v'] w']; simpl in *.
  - exists (boundElements index [e]). split; [done|]. split; [|done].
    by apply prefix_app_r.
  - destruct (IH (S index) v' w') as (processed & Htrace & Hpre & Hall).
    exists (boundElements index [e] ++ processed). split; [|split].
    + by rewrite Htrace, H, (assoc_L (++)).
    + by apply prefix_app.
    + intros v'' Hv. by rewrite (Hall v'' Hv).
Qed.

End ElementsTrace.

Section ElementsWithTrace.

Variable E : Collaborators.
Variable F : list JsonPatchOperation → list JsonPatchOperation.
Variable nested : list ForEachMutation → forEachMutator → World → Response * World.
Variable fe : ForEachMutation.

Hypothesis nested_boundAt : ∀ fes m w k,
  RawForEachMutation fe = Some (Ok fes) →
  k < nesting m →
  boundAt k (trace (nested fes m w).2) = boundAt k (trace w).

Lemma mutateElementsWith_boundAt_below f elements w k :
  k < nesting f →
  boundAt k (trace (mutateElementsWith E F nested f fe elements w).2)
  = boundAt k (trace w).
Proof.
  intros Hk. unfold mutateElementsWith.
  pose proof (elementsLoop_boundAt_below E nested fe nested_boundAt f 0
    (processingOrder fe elements)
    {| patchedResource := resource f; elementPatches := [] |}
    (onContext Checkpoint w) k Hk) as H.
  by destruct (elementsLoop E nested f fe 0 _ _ _) as [[r|v'] w'].
Qed.

Lemma mutateElementsWith_boundAt f elements w :
  ∃ processed,
    boundAt (nesting f) (trace (mutateElementsWith E F nested f fe elements w).2)
    = boundAt (nesting f) (trace w) ++ processed
    ∧ processed `prefix_of` boundElements 0 (processingOrder fe elements)
    ∧ (Status (mutateElementsWith E F nested f fe elements w).1 = RuleStatusPass →
       processed = boundElements 0 (processingOrder fe elements)).
Proof.
  unfold mutateElementsWith.
  destruct (elementsLoop_boundAt E nested fe nested_boundAt f 0
    (processingOrder fe elements)
    {| patchedResource := resource f; elementPatches := [] |}
    (onContext Checkpoint w)) as (processed & Htrace & Hpre & Hall).
  exists processed.
  pose proof (elementsLoop_Return E nested f fe 0 (processingOrder fe elements)
    {| patchedResource := resource f; elementPatches := [] |}
    (onContext Checkpoint w)) as Hret.
  destruct (elementsLoop E nested f fe 0 _ _ _) as [[r|v'] w'];
    simpl in *; (split; [done|]); (split; [done|]).
  - intros Hpass. destruct (Hret r eq_refl); congruence.
  - intros _. by apply (Hall v').
Qed.

End ElementsWithTrace.

Section SpecsTrace.

Variable E : Collaborators.
Variable mutElems : ForEachMutation → forEachMutator → list JSON → World → Response * World.

Lemma mutateSpec_nesting fe s w s' :
  (mutateSpec E mutElems fe s w).1 = Continue s' →
  nesting (mutator s') = nesting (mutator s).
Proof.
  unfold mutateSpec.
  destruct (EvaluateList E _ _) as [elements|err]; [|done].
  destruct (mutElems fe (mutator s) elements w) as [mutateResp w1].
  case_decide; [done|]. case_decide; [|by intros [= <-]].
  destruct (AddResource E _ _) as [raw err]; simpl.
  case_decide; by intros [= <-].
Qed.

Lemma mutateSpec_boundAt fe s w k :
  quietBelow mutElems fe → k < nesting (mutator s) →
  boundAt k (trace (mutateSpec E mutElems fe s w).2) = boundAt k (trace w).
Proof.
  intros Hq Hk. unfold mutateSpec.
  destruct (EvaluateList E _ _) as [elements|err]; [|done].
  specialize (Hq (mutator s) elements w k Hk).
  destruct (mutElems fe (mutator s) elements w) as [mutateResp w1]; simpl in *.
  rewrite <- Hq.
  case_decide; [done|]. case_decide; [|done].
  destruct (AddResource E _ _) as [raw [err|]]; simpl;
    rewrite ?boundAt_app; simpl; by rewrite ?app_nil_r.
Qed.

Lemma mutateSpecs_boundAt fes s w k :
  Forall (quietBelow mutElems) fes → k < nesting (mutator s) →
  boundAt k (trace (mutateSpecs E mutElems fes s w).2) = boundAt k (trace w).
Proof.
  intros Hall. revert s w.
  induction Hall as [|fe rest Hfe _ IH]; intros s w Hk; simpl; [done|].
  pose proof (mutateSpec_boundAt fe s w k Hfe Hk) as H.
  pose proof (mutateSpec_nesting fe s w) as Hn.
  destruct (mutateSpec E mutElems fe s w) as [[r|s'] w']; simpl in *; [done|].
  rewrite IH; [done|]. by rewrite (Hn s' eq_refl).
Qed.

Lemma mutateForEachOver_boundAt fes f w k :
  Forall (quietBelow mutElems) fes → k < nesting f →
  boundAt k (trace (mutateForEachOver E mutElems fes f w).2) = boundAt k (trace w).
Proof.
  intros Hall Hk. unfold mutateForEachOver.
  pose proof (mutateSpecs_boundAt fes
    {| mutator := f; applyCount := 0; allPatches := [] |} w k Hall Hk) as H.
  by destruct (mutateSpecs E mutElems fes _ w) as [[r|s'] w'].
Qed.

End SpecsTrace.

(** An evaluation at one nesting depth binds no element at a lesser depth. *)
Lemma mutateElements_quietBelow E fe : quietBelow (mutateElements E) fe.
Proof.
  induction fe as [fe IH] using ForEachMutation_nested_ind.
  intros f elements w k Hk. rewrite mutateElements_unfold.
  apply mutateElementsWith_boundAt_below; [|done].
  intros fes m w' k' Hraw Hk'. rewrite Hraw in IH.
  by apply mutateForEachOver_boundAt.
Qed.

Lemma nested_quiet E fes m w k :
  k < nesting m →
  boundAt k (trace (mutateForEachOver E (mutateElements E) fes m w).2)
  = boundAt k (trace w).
Proof.
  intros Hk. apply mutateForEachOver_boundAt; [|done].
  apply Forall_forall. intros fe _. apply mutateElements_quietBelow.
Qed.

(** ** The loop body, case by case *)

Lemma currentRaw_Reset w saved stack :
  checkpoints w = saved :: stack → currentRaw (onContext Reset w) = saved.
Proof.
  destruct w as [[raw cps] t]. unfold checkpoints. simpl. by intros ->.
Qed.

Section Body.

Variable E : Collaborators.
Variable nested : list ForEachMutation → forEachMutator → World → Response * World.
Variables (f : forEachMutator) (fe : ForEachMutation).
Variables (index : nat) (element : JSON) (v : elementVars) (w : World).
Variables (saved : JSON) (stack : list JSON).

Hypothesis not_nil : isNil element = false.
Hypothesis stored : checkpoints w = saved :: stack.

Lemma mutateElement_bind_error raw1 err :
  AddElementToContext E saved element index (nesting f) = (raw1, Some err) →
  (mutateElement E nested f fe index element v w).1
  = Return (NewErrorResponse
      ("failed to add element to mutate.foreach[" +:+ pretty index +:+ "].context")
      (Some err)).
Proof.
  intros Hadd. unfold mutateElement. rewrite not_nil.
  change (currentRaw (emit ?ev ?w')) with (currentRaw w').
  by rewrite (currentRaw_Reset w saved stack stored), Hadd.
Qed.

Lemma mutateElement_load_error raw1 raw2 err :
  AddElementToContext E saved element index (nesting f) = (raw1, None) →
  contextLoader E (Context fe) raw1 = (raw2, Some err) →
  (mutateElement E nested f fe index element v w).1
  = Return (NewErrorResponse
      ("failed to load to mutate.foreach[" +:+ pretty index +:+ "].context")
      (Some err)).
Proof.
  intros Hadd Hload. unfold mutateElement. rewrite not_nil.
  change (currentRaw (emit ?ev ?w')) with (currentRaw w').
  by rewrite (currentRaw_Reset w saved stack stored), Hadd, Hload.
Qed.

Lemma mutateElement_precondition_error raw1 raw2 err :
  AddElementToContext E saved element index (nesting f) = (raw1, None) →
  contextLoader E (Context fe) raw1 = (raw2, None) →
  CheckPreconditions E raw2 (AnyAllConditions fe) = Err err →
  (mutateElement E nested f fe index element v w).1
  = Return (NewErrorResponse
      ("failed to evaluate mutate.foreach[" +:+ pretty index +:+ "].preconditions")
      (Some err)).
Proof.
  intros Hadd Hload Hpre. unfold mutateElement. rewrite not_nil.
  change (currentRaw (emit ?ev ?w')) with (currentRaw w').
  by rewrite (currentRaw_Reset w saved stack stored), Hadd, Hload, Hpre.
Qed.


Lemma mutateElement_deserialize_error raw1 raw2 err :
  AddElementToContext E saved element index (nesting f) = (raw1, None) →
  contextLoader E (Context fe) raw1 = (raw2, None) →
  CheckPreconditions E raw2 (AnyAllConditions fe) = Ok true →
  RawForEachMutation fe = Some (Err err) →
  (mutateElement E nested f fe index element v w).1
  = Return (NewErrorResponse "failed to deserialize foreach" (Some err)).
Proof.
  intros Hadd Hload Hpre Hraw. unfold mutateElement. rewrite not_nil.
  change (currentRaw (emit ?ev ?w')) with (currentRaw w').
  by rewrite (currentRaw_Reset w saved stack stored), Hadd, Hload, Hpre, Hraw.
Qed.

Lemma mutateElement_outcome raw1 raw2 mutateResp :
  AddElementToContext E saved element index (nesting f) = (raw1, None) →
  contextLoader E (Context fe) raw1 = (raw2, None) →
  CheckPreconditions E raw2 (AnyAllConditions fe) = Ok true →
  elementOutcome E nested f fe index element v w raw1 raw2 = Some mutateResp →
  (mutateElement E nested f fe index element v w).1
  = if decide (Status mutateResp = RuleStatusFail ∨ Status mutateResp = RuleStatusError)
    then Return mutateResp
    else if decide (0 < length (Patches mutateResp))
    then Continue
           {| patchedResource :=
                withUnstructured (patchedResource v) (PatchedResource mutateResp);
              elementPatches := elementPatches v ++ Patches mutateResp |}
    else Continue v.
Proof.
  intros Hadd Hload Hpre. unfold elementOutcome, worldAtPreconditions, mutateElement.
  rewrite not_nil.
  change (currentRaw (emit ?ev ?w')) with (currentRaw w').
  rewrite (currentRaw_Reset w saved stack stored), Hadd, Hload, Hpre.
  destruct (RawForEachMutation fe) as [[fes|err]|]; [|done|].
  - destruct (nested fes _ _) as [resp w3]. simpl. intros [= ->].
    by repeat case_decide.
  - intros [= ->]. by repeat case_decide.
Qed.

End Body.

(** ** From the loop body to the rule *)

Lemma elementsLoop_stops E nested f fe index epre e erest v0 w0 v w r :
  elementsLoop E nested f fe index epre v0 w0 = (Continue v, w) →
  (mutateElement E nested f fe (index + length epre) e v w).1 = Return r →
  (elementsLoop E nested f fe index (epre ++ e :: erest) v0 w0).1 = Return r.
Proof.
  intros Hpre Hbody. rewrite elementsLoop_app, Hpre. simpl.
  by destruct (mutateElement E nested f fe _ e v w) as [[r'|v'] w']; simplify_eq/=.
Qed.

Lemma mutateElementsWith_stops E F nested f fe elements w epre e erest v w2 r :
  processingOrder fe elements = epre ++ e :: erest →
  elementsLoop E nested f fe 0 epre
    {| patchedResource := resource f; elementPatches := [] |} (onContext Checkpoint w)
  = (Continue v, w2) →
  (mutateElement E nested f fe (length epre) e v w2).1 = Return r →
  (mutateElementsWith E F nested f fe elements w).1 = r.
Proof.
  intros Horder Hpre Hbody. unfold mutateElementsWith. rewrite Horder.
  pose proof (elementsLoop_stops E nested f fe 0 epre e erest _ _ v w2 r Hpre Hbody) as H.
  by destruct (elementsLoop E nested f fe 0 (epre ++ e :: erest) _ _) as [[r'|v'] w'];
    simplify_eq/=.
Qed.

Lemma mutateElementsWith_completes E F nested f fe elements w v w2 :
  elementsLoop E nested f fe 0 (processingOrder fe elements)
    {| patchedResource := resource f; elementPatches := [] |} (onContext Checkpoint w)
  = (Continue v, w2) →
  (mutateElementsWith E F nested f fe elements w).1 = composePatches E F v.
Proof. intros Hloop. unfold mutateElementsWith. by rewrite Hloop. Qed.

(** The world in which the loop of [mutateElements] starts. *)
Lemma elementsLoopOf_stored E f fe index elements v0 w v w2 :
  elementsLoopOf E f fe index elements v0 (onContext Checkpoint w) = (Continue v, w2) →
  checkpoints w2 = currentRaw w :: checkpoints w.
Proof.
  intros Hloop.
  pose proof (elementsLoop_checkpoints E (mutateForEachOver E (mutateElements E)) fe
    (λ fes m w' _, mutateForEachOver_checkpoints E (mutateElements E) fes m w'
       (proj2 (Forall_forall _ _) (λ fe' _, mutateElements_context E fe')))
    f index elements v0 (onContext Checkpoint w)) as H.
  unfold elementsLoopOf in Hloop. by rewrite Hloop in H.
Qed.

Lemma mutateSpec_list_error E mutElems fe s w err :
  EvaluateList E (List fe) (currentRaw w) = Err err →
  mutateSpec E mutElems fe s w
  = (Return (NewErrorResponse
       ("failed to evaluate list " +:+ List fe +:+ ": " +:+ err) (Some err)), w).
Proof. intros H. unfold mutateSpec. by rewrite H. Qed.

Lemma mutateSpec_elements_error E mutElems fe s w elements :
  EvaluateList E (List fe) (currentRaw w) = Ok elements →
  Status (mutElems fe (mutator s) elements w).1 = RuleStatusError →
  (mutateSpec E mutElems fe s w).1
  = Return (NewErrorResponse "failed to mutate elements" None).
Proof.
  intros H Hst. unfold mutateSpec. rewrite H.
  destruct (mutElems fe (mutator s) elements w) as [resp w1]; simpl in *.
  by rewrite decide_True.
Qed.

Lemma mutateForEach_stops E f w pre fe post s w1 r :
  foreach f = pre ++ fe :: post →
  mutateSpecsOf E pre (initialVars f) w = (Continue s, w1) →
  (mutateSpec E (mutateElements E) fe s w1).1 = Return r →
  (mutateForEach E f w).1 = r.
Proof.
  intros Hsplit Hpre Hspec. unfold mutateForEach, mutateForEachOver.
  unfold mutateSpecsOf, initialVars in Hpre.
  rewrite Hsplit, mutateSpecs_app, Hpre. simpl.
  by destruct (mutateSpec E (mutateElements E) fe s w1) as [[r'|s'] w']; simplify_eq/=.
Qed.

(** Every Error outcome of [mutateForEach] is one it built itself: it has no
    patches and no resource. *)
Lemma mutateSpec_Return E mutElems fe s w r :
  (mutateSpec E mutElems fe s w).1 = Return r →
  ∃ msg cause, r = NewErrorResponse msg cause.
Proof.
  unfold mutateSpec.
  destruct (EvaluateList E _ _) as [elements|err]; [|intros [= <-]; eauto].
  destruct (mutElems fe (mutator s) elements w) as [resp w1].
  case_decide; [intros [= <-]; eauto|].
  case_decide; [|done].
  by destruct (AddResource E _ _) as [raw err].
Qed.

Lemma mutateSpecs_Return E mutElems fes s w r :
  (mutateSpecs E mutElems fes s w).1 = Return r →
  ∃ msg cause, r = NewErrorResponse msg cause.
Proof.
  revert s w. induction fes as [|fe rest IH]; intros s w; simpl; [done|].
  pose proof (mutateSpec_Return E mutElems fe s w) as H.
  destruct (mutateSpec E mutElems fe s w) as [[r'|s'] w']; simpl in *.
  - intros [= <-]. by apply H.
  - apply IH.
Qed.

Lemma forEachResponse_status s :
  Status (forEachResponse s)
  = if decide (applyCount s = 0) then RuleStatusSkip else RuleStatusPass.
Proof. unfold forEachResponse. by case_decide. Qed.

Lemma mutateForEachOver_Error E mutElems fes f w :
  Status (mutateForEachOver E mutElems fes f w).1 = RuleStatusError →
  ∃ msg cause, (mutateForEachOver E mutElems fes f w).1 = NewErrorResponse msg cause.
Proof.
  unfold mutateForEachOver.
  pose proof (mutateSpecs_Return E mutElems fes
    {| mutator := f; applyCount := 0; allPatches := [] |} w) as H.
  destruct (mutateSpecs E mutElems fes _ w) as [[r|s] w']; simpl in *.
  - intros _. by apply H.
  - rewrite forEachResponse_status. by case_decide.
Qed.

(** [mutateForEach] returns Pass, Skip or Error, never Fail. *)
Lemma mutateForEachOver_not_Fail E mutElems fes f w :
  Status (mutateForEachOver E mutElems fes f w).1 ≠ RuleStatusFail.
Proof.
  unfold mutateForEachOver.
  pose proof (mutateSpecs_Return E mutElems fes
    {| mutator := f; applyCount := 0; allPatches := [] |} w) as H.
  destruct (mutateSpecs E mutElems fes _ w) as [[r|s] w']; simpl in *.
  - by destruct (H r eq_refl) as (msg & cause & ->).
  - rewrite forEachResponse_status. by case_decide.
Qed.

(** ** Counting the declarations *)

Lemma mutateElements_not_Skip E fe f elements w :
  Status (mutateElements E fe f elements w).1 ≠ RuleStatusSkip.
Proof. rewrite mutateElements_unfold. apply mutateElementsWith_status. Qed.

Section Collecting.

Variable E : Collaborators.
Variable mutElems : ForEachMutation → forEachMutator → list JSON → World → Response * World.

Hypothesis never_Skip : ∀ fe f elements w,
  Status (mutElems fe f elements w).1 ≠ RuleStatusSkip.

(** A declaration whose evaluation does not end in Error is counted once,
    whatever became of its elements, and its patches are collected. *)
Lemma mutateSpec_collects fe s w elements :
  EvaluateList E (List fe) (currentRaw w) = Ok elements →
  Status (mutElems fe (mutator s) elements w).1 ≠ RuleStatusError →
  ∃ s',
    (mutateSpec E mutElems fe s w).1 = Continue s'
    ∧ applyCount s' = S (applyCount s)
    ∧ allPatches s' = allPatches s ++ Patches (mutElems fe (mutator s) elements w).1.
Proof.
  intros Hlist Herror. unfold mutateSpec. rewrite Hlist.
  pose proof (never_Skip fe (mutator s) elements w) as Hskip.
  destruct (mutElems fe (mutator s) elements w) as [resp w1]; simpl in *.
  rewrite decide_False by done. rewrite decide_True by done.
  destruct (AddResource E _ _) as [raw err]; simpl.
  eexists. split; [done|]. case_decide; simpl; [done|].
  split; [done|]. destruct (Patches resp); simpl in *; [by rewrite app_nil_r|lia].
Qed.

Lemma mutateSpec_Continue fe s w s' :
  (mutateSpec E mutElems fe s w).1 = Continue s' →
  ∃ elements,
    EvaluateList E (List fe) (currentRaw w) = Ok elements
    ∧ Status (mutElems fe (mutator s) elements w).1 ≠ RuleStatusError.
Proof.
  unfold mutateSpec.
  destruct (EvaluateList E _ _) as [elements|err]; [|done].
  intros Hs. exists elements. split; [done|]. revert Hs.
  destruct (mutElems fe (mutator s) elements w) as [resp w1]; simpl.
  by case_decide.
Qed.

Lemma mutateSpecs_collects fes s w s' :
  (mutateSpecs E mutElems fes s w).1 = Continue s' →
  applyCount s' = applyCount s + length fes
  ∧ allPatches s'
    = allPatches s ++ concat (Patches <$> declarationOutcomes E mutElems fes s w)
  ∧ length (declarationOutcomes E mutElems fes s w) = length fes.
Proof.
  revert s w. induction fes as [|fe rest IH]; intros s w; simpl.
  { intros [= <-]. by rewrite Nat.add_0_r, app_nil_r. }
  pose proof (mutateSpec_Continue fe s w) as Hcont.
  pose proof (mutateSpec_collects fe s w) as Hfe.
  destruct (mutateSpec E mutElems fe s w) as [[r|s1] w1]; simpl in *; [done|].
  destruct (Hcont s1 eq_refl) as (elements & Hlist & Herror).
  destruct (Hfe elements Hlist Herror) as (s1' & [= <-] & Hcount & Hpatches).
  rewrite Hlist. intros Hrest. destruct (IH s1 w1 Hrest) as (Hc & Hp & Hl).
  simpl. rewrite Hc, Hp, Hcount, Hpatches, Hl, (assoc_L (++)). split; [lia|done].
Qed.

End Collecting.

(** ** Logged errors *)

Lemma withoutLoggedErrors_app t1 t2 :
  withoutLoggedErrors (t1 ++ t2) = withoutLoggedErrors t1 ++ withoutLoggedErrors t2.
Proof. apply omap_app. Qed.

Lemma similar_refl w : similar w w.
Proof. done. Qed.

Lemma similar_onContext g w w' :
  similar w w' → similar (onContext g w) (onContext g w').
Proof. intros [Hc Ht]. split; simpl; by rewrite ?Hc. Qed.

Lemma similar_emit ev w w' : similar w w' → similar (emit ev w) (emit ev w').
Proof.
  intros [Hc Ht]. split; simpl; [done|]. by rewrite !withoutLoggedErrors_app, Ht.
Qed.

Lemma similar_emit_error err msg w w' :
  similar w w' → similar (emit (LoggedError err msg) w) w'.
Proof.
  intros [Hc Ht]. split; simpl; [done|].
  rewrite withoutLoggedErrors_app, Ht. simpl. by rewrite app_nil_r.
Qed.

Lemma similar_writeThrough E raw w w' :
  similar w w' → similar (writeThrough E raw w) (writeThrough E raw w').
Proof.
  intros H. unfold writeThrough. destruct (copySharesContext E); [|done].
  by apply similar_onContext.
Qed.

Lemma similar_currentRaw w w' : similar w w' → currentRaw w = currentRaw w'.
Proof. intros [Hc _]. unfold currentRaw. by rewrite Hc. Qed.

Section Agreement.

Variable E : Collaborators.
Variables nested nested' :
  list ForEachMutation → forEachMutator → World → Response * World.
Variable fe : ForEachMutation.

Hypothesis nested_agree : ∀ fes m w w',
  RawForEachMutation fe = Some (Ok fes) →
  similar w w' → agree (nested fes m w) (nested' fes m w').

Lemma mutateElement_agree f index element v w w' :
  similar w w' →
  agree (mutateElement E nested f fe index element v w)
        (mutateElement E nested' f fe index element v w').
Proof.
  intros Hsim. unfold mutateElement.
  destruct (isNil element); [done|].
  assert (similar (emit (ElementBound (nesting f) index element) (onContext Reset w))
                  (emit (ElementBound (nesting f) index element) (onContext Reset w')))
    as Hsim1 by by apply similar_emit, similar_onContext.
  rewrite <- (similar_currentRaw _ _ Hsim1).
  destruct (AddElementToContext E _ _ _ _) as [raw1 [err1|]]; simpl.
  { split; [done|]. by apply similar_writeThrough. }
  destruct (contextLoader E _ _) as [raw2 [err2|]]; simpl.
  { split; [done|]. by do 2 apply similar_writeThrough. }
  assert (similar
    (writeThrough E raw2 (writeThrough E raw1
      (emit (ElementBound (nesting f) index element) (onContext Reset w))))
    (writeThrough E raw2 (writeThrough E raw1
      (emit (ElementBound (nesting f) index element) (onContext Reset w')))))
    as Hsim2 by by do 2 apply similar_writeThrough.
  destruct (CheckPreconditions E _ _) as [[|]|err3]; simpl.
  - destruct (RawForEachMutation fe) as [[fes|err4]|] eqn:Hraw; simpl.
    + destruct (nested_agree fes {| rule := rule f; foreach := fes;
        resource := patchedResource v; nesting := nesting f + 1 |} _ _ eq_refl Hsim2)
        as [Hr Hw].
      destruct (nested fes _ _) as [resp w3], (nested' fes _ _) as [resp' w3'].
      simpl in *. subst resp'. by repeat case_decide.
    + done.
    + by repeat case_decide.
  - split; [done|]. by apply similar_emit.
  - done.
Qed.

Lemma elementsLoop_agree f index elements v w w' :
  similar w w' →
  agree (elementsLoop E nested f fe index elements v w)
        (elementsLoop E nested' f fe index elements v w').
Proof.
  revert index v w w'.
  induction elements as [|e rest IH]; intros index v w w' Hsim; simpl; [done|].
  destruct (mutateElement_agree f index e v w w' Hsim) as [Hr Hw].
  destruct (mutateElement E nested f fe index e v w) as [[r|v1] w1],
    (mutateElement E nested' f fe index e v w') as [[r'|v1'] w1'];
    simplify_eq/=; [done|]. by apply IH.
Qed.

Lemma mutateElementsWith_agree F f elements w w' :
  similar w w' →
  agree (mutateElementsWith E F nested f fe elements w)
        (mutateElementsWith E F nested' f fe elements w').
Proof.
  intros Hsim. unfold mutateElementsWith.
  destruct (elementsLoop_agree f 0 (processingOrder fe elements)
    {| patchedResource := resource f; elementPatches := [] |}
    (onContext Checkpoint w) (onContext Checkpoint w')
    (similar_onContext _ _ _ Hsim)) as [Hr Hw].
  destruct (elementsLoop E nested f fe 0 _ _ _) as [[r|v1] w1],
    (elementsLoop E nested' f fe 0 _ _ _) as [[r'|v1'] w1'];
    simplify_eq/=; (split; [done|]); by apply similar_onContext.
Qed.

End Agreement.

Section SpecsAgreement.

Variable E : Collaborators.
Variables mutElems mutElems' :
  ForEachMutation → forEachMutator → list JSON → World → Response * World.

Lemma mutateSpec_agree fe s w w' :
  agreeOn mutElems mutElems' fe → similar w w' →
  agree (mutateSpec E mutElems fe s w)
        (mutateSpec (silenceAddResource E) mutElems' fe s w').
Proof.
  intros Hfe Hsim. unfold mutateSpec.
  change (EvaluateList (silenceAddResource E)) with (EvaluateList E).
  rewrite <- (similar_currentRaw _ _ Hsim).
  destruct (EvaluateList E _ _) as [elements|err]; [|done].
  destruct (Hfe (mutator s) elements w w' Hsim) as [Hr Hw].
  destruct (mutElems fe (mutator s) elements w) as [resp w1],
    (mutElems' fe (mutator s) elements w') as [resp' w1'].
  simpl in Hr, Hw. subst resp'.
  case_decide; [done|]. case_decide; [|done].
  assert (similar (emit (InfoPatchedResource (PatchedResource resp)) w1)
                  (emit (InfoPatchedResource (PatchedResource resp)) w1'))
    as Hsim1 by by apply similar_emit.
  rewrite <- (similar_currentRaw _ _ Hsim1). simpl.
  destruct (AddResource E _ _) as [raw [err|]]; simpl; (split; [done|]).
  - by apply similar_emit_error, similar_onContext.
  - by apply similar_onContext.
Qed.

Lemma mutateSpecs_agree fes s w w' :
  Forall (agreeOn mutElems mutElems') fes → similar w w' →
  agree (mutateSpecs E mutElems fes s w)
        (mutateSpecs (silenceAddResource E) mutElems' fes s w').
Proof.
  intros Hall. revert s w w'.
  induction Hall as [|fe rest Hfe _ IH]; intros s w w' Hsim; simpl; [done|].
  destruct (mutateSpec_agree fe s w w' Hfe Hsim) as [Hr Hw].
  destruct (mutateSpec E mutElems fe s w) as [[r|s1] w1],
    (mutateSpec (silenceAddResource E) mutElems' fe s w') as [[r'|s1'] w1'];
    simplify_eq/=; [done|]. by apply IH.
Qed.

Lemma mutateForEachOver_agree fes f w w' :
  Forall (agreeOn mutElems mutElems') fes → similar w w' →
  agree (mutateForEachOver E mutElems fes f w)
        (mutateForEachOver (silenceAddResource E) mutElems' fes f w').
Proof.
  intros Hall Hsim. unfold mutateForEachOver.
  destruct (mutateSpecs_agree fes {| mutator := f; applyCount := 0; allPatches := [] |}
    w w' Hall Hsim) as [Hr Hw].
  destruct (mutateSpecs E mutElems fes _ w) as [[r|s1] w1],
    (mutateSpecs (silenceAddResource E) mutElems' fes _ w') as [[r'|s1'] w1'];
    by simplify_eq/=.
Qed.

End SpecsAgreement.

Lemma mutateElements_agree E fe :
  agreeOn (mutateElements E) (mutateElements (silenceAddResource E)) fe.
Proof.
  induction fe as [fe IH] using ForEachMutation_nested_ind.
  intros f elements w w' Hsim. rewrite !mutateElements_unfold.
  change (mutateElementsWith (silenceAddResource E))
    with (mutateElementsWith E).
  apply mutateElementsWith_agree; [|done].
  intros fes m w1 w1' Hraw Hsim1. rewrite Hraw in IH.
  by apply mutateForEachOver_agree.
Qed.

(** * The claims *)

(** ** C1 *)

(** C1, counterexample.  A rule with one foreach declaration whose list
    evaluates to the empty list: no element passes its preconditions, yet
    [mutateForEach] returns Pass with message "1 elements processed", not
    Skip with message "0 elements processed". *)
Lemma empty_list_is_not_skipped :
  let r := (mutateForEach Examples.demo (Examples.mutatorOf [Examples.volumes])
              Examples.admission).1 in
  EvaluateList Examples.demo (List Examples.volumes) (currentRaw Examples.admission) = Ok []
  ∧ Status r = RuleStatusPass
  ∧ Message r = "1 elements processed"
  ∧ ¬ (Status r = RuleStatusSkip ∧ Message r = "0 elements processed").
Proof. vm_compute. repeat split; try reflexivity. intros [H _]. discriminate H. Qed.

(** C1, as amended.  In an evaluation in which no declaration's element
    evaluation returns Fail and which does not end in Error, [mutateForEach]
    returns Skip with message "0 elements processed" exactly when the rule
    has no foreach declaration, and Pass with message "<applied> elements
    processed" otherwise, where applied is the number of declarations
    evaluated; its patches are those of the declarations' outcomes, in
    order. *)
Theorem mutateForEach_counts_declarations E f w :
  let r := (mutateForEach E f w).1 in
  let outcomes := declarationOutcomes E (mutateElements E) (foreach f) (initialVars f) w in
  Forall (λ outcome, Status outcome ≠ RuleStatusFail) outcomes →
  Status r = RuleStatusError
  ∨ (Status r = (if decide (foreach f = []) then RuleStatusSkip else RuleStatusPass)
     ∧ Message r = pretty (length (foreach f)) +:+ " elements processed"
     ∧ Patches r = concat (Patches <$> outcomes)
     ∧ length outcomes = length (foreach f)).
Proof.
  simpl. intros _. unfold mutateForEach, mutateForEachOver.
  pose proof (mutateSpecs_Return E (mutateElements E) (foreach f) (initialVars f) w) as Hret.
  pose proof (mutateSpecs_collects E (mutateElements E) (mutateElements_not_Skip E)
    (foreach f) (initialVars f) w) as Hcount.
  unfold initialVars in *.
  destruct (mutateSpecs E (mutateElements E) (foreach f) _ w) as [[r|s] w']; simpl in *.
  - left. by destruct (Hret r eq_refl) as (msg & cause & ->).
  - right. destruct (Hcount s eq_refl) as (Hc & Hp & Hl). simpl in Hc, Hp.
    unfold forEachResponse. rewrite Hc, Hp, Hl.
    by destruct (foreach f) as [|fe rest].
Qed.

Lemma mutateForEach_counts_declarations_witness :
  Status (mutateForEach Examples.demo
            (Examples.mutatorOf [Examples.containers; Examples.volumes])
            Examples.admission).1 = RuleStatusPass
  ∧ Message (mutateForEach Examples.demo
               (Examples.mutatorOf [Examples.containers; Examples.volumes])
               Examples.admission).1 = "2 elements processed".
Proof.
  destruct (mutateForEach_counts_declarations Examples.demo
    (Examples.mutatorOf [Examples.containers; Examples.volumes]) Examples.admission)
    as [Herr|(Hst & Hmsg & _)].
  - vm_compute. repeat constructor; discriminate.
  - vm_compute in Herr. discriminate Herr.
  - split; [exact Hst | exact Hmsg].
Defined.

(** ** C6 *)

(** C6, at the failing input.  The mutator rejects the sidecar with Fail;
    [mutateElements] returns that outcome at once, but [mutateForEach]
    counts the declaration as applied and reports Pass. *)
Lemma fail_is_reported_as_pass :
  let f := Examples.mutatorOf [Examples.containers] in
  let elements := [JString "nginx"; JNull; JString "sidecar"] in
  (mutateElements Examples.rejecting Examples.containers f elements Examples.admission).1
  = NewResponse RuleStatusFail (Examples.label "nginx" Examples.pod) []
      "sidecars are not allowed"
  ∧ Status (mutateForEach Examples.rejecting f Examples.admission).1 = RuleStatusPass
  ∧ Message (mutateForEach Examples.rejecting f Examples.admission).1
    = "1 elements processed".
Proof. vm_compute. done. Qed.

(** ** C7 *)

(** C7.  When the list of a declaration fails to evaluate, whatever the
    declarations before it produced, [mutateForEach] returns at once an
    Error outcome that carries the failure and no patches. *)
Theorem list_evaluation_failure_is_fatal E f w pre fe post s w1 err :
  foreach f = pre ++ fe :: post →
  mutateSpecsOf E pre (initialVars f) w = (Continue s, w1) →
  EvaluateList E (List fe) (currentRaw w1) = Err err →
  let r := (mutateForEach E f w).1 in
  r = NewErrorResponse ("failed to evaluate list " +:+ List fe +:+ ": " +:+ err) (Some err)
  ∧ Status r = RuleStatusError
  ∧ Patches r = []
  ∧ (mutateForEach E f w).2 = w1.
Proof.
  intros Hsplit Hpre Herr. simpl.
  pose proof (mutateSpec_list_error E (mutateElements E) fe s w1 err Herr) as Hspec.
  assert (mutateForEach E f w
          = (NewErrorResponse ("failed to evaluate list " +:+ List fe +:+ ": " +:+ err)
               (Some err), w1)) as ->; [|done].
  unfold mutateForEach, mutateForEachOver.
  unfold mutateSpecsOf, initialVars in Hpre.
  rewrite Hsplit, mutateSpecs_app, Hpre. simpl. by rewrite Hspec.
Qed.

Lemma list_evaluation_failure_is_fatal_witness :
  let f := Examples.mutatorOf [Examples.containers; Examples.missing; Examples.volumes] in
  Status (mutateForEach Examples.demo f Examples.admission).1 = RuleStatusError
  ∧ Patches (mutateForEach Examples.demo f Examples.admission).1 = [].
Proof.
  edestruct (list_evaluation_failure_is_fatal Examples.demo
    (Examples.mutatorOf [Examples.containers; Examples.missing; Examples.volumes])
    Examples.admission [Examples.containers] Examples.missing [Examples.volumes])
    as (_ & Hst & Hp & _).
  - reflexivity.
  - vm_compute. reflexivity.
  - vm_compute. reflexivity.
  - split; [exact Hst | exact Hp].
Defined.

(** ** C5 *)

Lemma mutateElements_stops E f fe elements w epre e erest v w2 r :
  processingOrder fe elements = epre ++ e :: erest →
  elementsLoopOf E f fe 0 epre
    {| patchedResource := resource f; elementPatches := [] |} (onContext Checkpoint w)
  = (Continue v, w2) →
  (mutateElement E (mutateForEachOver E (mutateElements E)) f fe (length epre) e v w2).1
  = Return r →
  (mutateElements E fe f elements w).1 = r.
Proof.
  intros Horder Hpre Hbody. rewrite mutateElements_unfold.
  by eapply mutateElementsWith_stops.
Qed.

Lemma mutateElements_completes E f fe elements w v w2 :
  elementsLoopOf E f fe 0 (processingOrder fe elements)
    {| patchedResource := resource f; elementPatches := [] |} (onContext Checkpoint w)
  = (Continue v, w2) →
  (mutateElements E fe f elements w).1
  = composePatches E PatchComposer.FilterAndSortPatches v.
Proof.
  intros Hloop. rewrite mutateElements_unfold.
  by eapply mutateElementsWith_completes.
Qed.

(** C5, counterexample.  Loading the declared context fails for the first
    element.  [mutateElements] reports the failure with its cause;
    [mutateForEach] does not pass that outcome on: its own outcome is a
    different one, whose message names no cause. *)
Lemma element_error_is_not_passed_on :
  let f := Examples.mutatorOf [Examples.unreachable] in
  let elements := [JString "nginx"; JNull; JString "sidecar"] in
  let inner :=
    (mutateElements Examples.demo Examples.unreachable f elements Examples.admission).1 in
  let r := (mutateForEach Examples.demo f Examples.admission).1 in
  inner = NewErrorResponse "failed to load to mutate.foreach[0].context"
            (Some "connection refused")
  ∧ r = NewErrorResponse "failed to mutate elements" None
  ∧ Message r = "failed to mutate elements: <nil>"
  ∧ r ≠ inner.
Proof. vm_compute. repeat split; try reflexivity. discriminate. Qed.

(** C5, as amended.  Every class of error ends the evaluation of the rule
    with an Error outcome that has a descriptive message and no patches.  A
    list that fails to evaluate is reported with the list expression and the
    cause.  Inside a declaration, a failure to bind the element, to load the
    context, to evaluate the preconditions or to deserialize the nested
    declarations, an element outcome of status Error, and a patch that fails
    to convert or to marshal each make [mutateElements] return an Error
    outcome with its own message and cause; [mutateForEach] then returns an
    Error outcome of its own, under the message "failed to mutate
    elements". *)
Theorem errors_are_fatal E f w pre fe post s w1 :
  foreach f = pre ++ fe :: post →
  mutateSpecsOf E pre (initialVars f) w = (Continue s, w1) →
  let r := (mutateForEach E f w).1 in
  let v0 := {| patchedResource := resource (mutator s); elementPatches := [] |} in
  (∀ err, EvaluateList E (List fe) (currentRaw w1) = Err err →
     r = NewErrorResponse ("failed to evaluate list " +:+ List fe +:+ ": " +:+ err)
           (Some err))
  ∧ (∀ elements, EvaluateList E (List fe) (currentRaw w1) = Ok elements →
     let r' := (mutateElements E fe (mutator s) elements w1).1 in
     (Status r' = RuleStatusError →
        Status r = RuleStatusError ∧ Patches r = []
        ∧ ∃ cause, r = NewErrorResponse "failed to mutate elements" cause)
     ∧ (∀ epre e erest v w2,
          processingOrder fe elements = epre ++ e :: erest →
          elementsLoopOf E (mutator s) fe 0 epre v0 (onContext Checkpoint w1)
          = (Continue v, w2) →
          isNil e = false →
          ∀ raw1 bound,
            AddElementToContext E (currentRaw w1) e (length epre) (nesting (mutator s))
            = (raw1, bound) →
            match bound with
            | Some err =>
                r' = NewErrorResponse
                       ("failed to add element to mutate.foreach["
                          +:+ pretty (length epre) +:+ "].context") (Some err)
            | None =>
                ∀ raw2 loaded,
                  contextLoader E (Context fe) raw1 = (raw2, loaded) →
                  match loaded with
                  | Some err =>
                      r' = NewErrorResponse
                             ("failed to load to mutate.foreach["
                                +:+ pretty (length epre) +:+ "].context") (Some err)
                  | None =>
                      match CheckPreconditions E raw2 (AnyAllConditions fe) with
                      | Err err =>
                          r' = NewErrorResponse
                                 ("failed to evaluate mutate.foreach["
                                    +:+ pretty (length epre) +:+ "].preconditions")
                                 (Some err)
                      | Ok false => True
                      | Ok true =>
                          match RawForEachMutation fe with
                          | Some (Err err) =>
                              r' = NewErrorResponse "failed to deserialize foreach"
                                     (Some err)
                          | _ =>
                              ∀ mutateResp,
                                elementOutcome E (mutateForEachOver E (mutateElements E))
                                  (mutator s) fe (length epre) e v w2 raw1 raw2
                                = Some mutateResp →
                                Status mutateResp = RuleStatusError →
                                r' = mutateResp
                          end
                      end
                  end
            end)
     ∧ (∀ v w2,
          elementsLoopOf E (mutator s) fe 0 (processingOrder fe elements) v0
            (onContext Checkpoint w1) = (Continue v, w2) →
          match unmarshalPatches E (elementPatches v) with
          | Err err => r' = NewErrorResponse "failed to convert patch" (Some err)
          | Ok operations =>
              match marshalPatches E (PatchComposer.FilterAndSortPatches operations) with
              | Err err => r' = NewErrorResponse "failed to marshal patch" (Some err)
              | Ok _ => Status r' = RuleStatusPass
              end
          end)).
Proof.
  intros Hsplit Hpre. simpl. split.
  { intros err Herr. eapply mutateForEach_stops; [done..|].
    by rewrite (mutateSpec_list_error E (mutateElements E) fe s w1 err Herr). }
  intros elements Hlist. split; [|split].
  - intros Hst.
    assert ((mutateForEach E f w).1 = NewErrorResponse "failed to mutate elements" None)
      as ->; [|by eauto].
    eapply mutateForEach_stops; [done..|]. by apply mutateSpec_elements_error with elements.
  - intros epre e erest v w2 Horder Hloop Hnil raw1 bound Hbind.
    pose proof (elementsLoopOf_stored E _ fe 0 epre _ w1 v w2 Hloop) as Hstored.
    destruct bound as [err|].
    { eapply mutateElements_stops; [done..|].
      by eapply mutateElement_bind_error. }
    intros raw2 loaded Hload. destruct loaded as [err|].
    { eapply mutateElements_stops; [done..|].
      by eapply mutateElement_load_error. }
    destruct (CheckPreconditions E raw2 (AnyAllConditions fe)) as [[|]|err] eqn:Hcheck;
      [|done|].
    + destruct (RawForEachMutation fe) as [[fes|err]|] eqn:Hraw.
      * intros mutateResp Hout Hst.
        eapply mutateElements_stops; [done..|].
        erewrite mutateElement_outcome; [|done..].
        rewrite decide_True; [done|by right].
      * eapply mutateElements_stops; [done..|].
        by eapply mutateElement_deserialize_error.
      * intros mutateResp Hout Hst.
        eapply mutateElements_stops; [done..|].
        erewrite mutateElement_outcome; [|done..].
        rewrite decide_True; [done|by right].
    + eapply mutateElements_stops; [done..|].
      by eapply mutateElement_precondition_error.
  - intros v w2 Hloop. rewrite (mutateElements_completes E _ fe elements w1 v w2 Hloop).
    unfold composePatches.
    destruct (unmarshalPatches E _) as [operations|err]; [|done].
    by destruct (marshalPatches E _).
Qed.

Lemma errors_are_fatal_witness :
  let f := Examples.mutatorOf [Examples.containers; Examples.unreachable] in
  Status (mutateForEach Examples.demo f Examples.admission).1 = RuleStatusError
  ∧ Patches (mutateForEach Examples.demo f Examples.admission).1 = [].
Proof.
  edestruct (errors_are_fatal Examples.demo
    (Examples.mutatorOf [Examples.containers; Examples.unreachable])
    Examples.admission [Examples.containers] Examples.unreachable [])
    as (_ & Helements).
  - reflexivity.
  - vm_compute. reflexivity.
  - edestruct Helements as ((Hst & Hp & _) & _).
    + vm_compute. reflexivity.
    + vm_compute. reflexivity.
    + split; [exact Hst | exact Hp].
Defined.

(** ** C8 *)





(** ** C3 *)

(** C3.  The elements [mutateElements] binds at its own depth are, in order
    and with the positions they are bound at, the non-nil elements of the
    reversed list when the declaration has a strategic merge patch, and of
    the list as declared otherwise: all of them when the outcome is Pass, the
    first of them when the evaluation returns early. *)
Theorem elements_processing_order E fe f elements w :
  let order :=
    match RawPatchStrategicMerge fe with
    | Some _ => rev elements
    | None => elements
    end in
  let run := mutateElements E fe f elements w in
  ∃ processed,
    boundAt (nesting f) (trace run.2) = boundAt (nesting f) (trace w) ++ processed
    ∧ processed `prefix_of` boundElements 0 order
    ∧ (Status run.1 = RuleStatusPass → processed = boundElements 0 order).
Proof.
  simpl. rewrite mutateElements_unfold.
  apply (mutateElementsWith_boundAt E PatchComposer.FilterAndSortPatches
    (mutateForEachOver E (mutateElements E)) fe).
  intros fes m w' k _ Hk. by apply nested_quiet.
Qed.

Lemma elements_processing_order_witness :
  let elements := [JString "nginx"; JNull; JString "sidecar"] in
  let f := Examples.mutatorOf [] in
  boundAt 0 (trace (mutateElements Examples.demo Examples.containersStrategicMerge f
                      elements Examples.admission).2)
  = [(0, JString "sidecar"); (2, JString "nginx")]
  ∧ boundAt 0 (trace (mutateElements Examples.demo Examples.containers f
                        elements Examples.admission).2)
    = [(0, JString "nginx"); (2, JString "sidecar")].
Proof.
  split.
  - destruct (elements_processing_order Examples.demo Examples.containersStrategicMerge
      (Examples.mutatorOf []) [JString "nginx"; JNull; JString "sidecar"]
      Examples.admission) as (processed & Htrace & _ & Hall).
    etrans; [exact Htrace|]. rewrite Hall by reflexivity. reflexivity.
  - destruct (elements_processing_order Examples.demo Examples.containers
      (Examples.mutatorOf []) [JString "nginx"; JNull; JString "sidecar"]
      Examples.admission) as (processed & Htrace & _ & Hall).
    etrans; [exact Htrace|]. rewrite Hall by reflexivity. reflexivity.
Defined.

(** ** C4 *)

Lemma mutateSpec_context E fe s w :
  jsonContext (mutateSpec E (mutateElements E) fe s w).2 = jsonContext w
  ∨ ∃ object,
      jsonContext (mutateSpec E (mutateElements E) fe s w).2
      = setRaw (jsonContext w) (AddResource E object (currentRaw w)).1.
Proof.
  unfold mutateSpec.
  destruct (EvaluateList E _ _) as [elements|err]; [|by left].
  pose proof (mutateElements_context E fe (mutator s) elements w) as Hctx.
  destruct (mutateElements E fe (mutator s) elements w) as [resp w1]; simpl in *.
  case_decide; [by left|]. case_decide; [|by left].
  right. exists (Object (PatchedResource resp)).
  change (currentRaw (emit ?ev ?w')) with (currentRaw w').
  unfold currentRaw. rewrite Hctx.
  by destruct (AddResource E _ _) as [raw [err|]]; simpl; rewrite Hctx.
Qed.

(** C4.  [mutateElements] stores a checkpoint before its loop and restores it
    however it returns: the context it leaves is the context it was called
    with.  Inside the loop every element starts from the checkpoint, so the
    loop from any element on is the same whatever document the element
    before it left in the context.  A sibling declaration finds the context
    of the declaration before it, changed at most by the patched resource
    that [mutateForEach] adds. *)
Theorem context_restored_on_every_exit E f fe :
  (∀ elements w, jsonContext (mutateElements E fe f elements w).2 = jsonContext w)
  ∧ (∀ index rest v raw raw' saved stack t,
       let w := {| jsonContext := {| jsonRaw := raw; jsonRawCheckpoints := saved :: stack |};
                   trace := t |} in
       let w' := {| jsonContext := {| jsonRaw := raw'; jsonRawCheckpoints := saved :: stack |};
                    trace := t |} in
       (elementsLoopOf E f fe index rest v w).1 = (elementsLoopOf E f fe index rest v w').1
       ∧ onContext Restore (elementsLoopOf E f fe index rest v w).2
         = onContext Restore (elementsLoopOf E f fe index rest v w').2)
  ∧ (∀ s w,
       jsonContext (mutateSpec E (mutateElements E) fe s w).2 = jsonContext w
       ∨ ∃ object,
           jsonContext (mutateSpec E (mutateElements E) fe s w).2
           = setRaw (jsonContext w) (AddResource E object (currentRaw w)).1).
Proof.
  split; [|split].
  - apply mutateElements_context.
  - intros index rest v raw raw' saved stack t. apply elementsLoop_from_checkpoint.
  - apply mutateSpec_context.
Qed.

(** ** C2 *)

Lemma unmarshalPatches_Permutation E ps ps' :
  ps ≡ₚ ps' →
  ∀ operations, unmarshalPatches E ps = Ok operations →
  ∃ operations', unmarshalPatches E ps' = Ok operations' ∧ operations ≡ₚ operations'.
Proof.
  induction 1 as [|p ps ps' _ IH|p q ps|ps ps' ps'' _ IH1 _ IH2]; intros operations; simpl.
  - intros [= <-]. by exists [].
  - destruct (Unmarshal E p) as [jp|err]; [|done].
    destruct (unmarshalPatches E ps) as [jps|err]; [|done].
    intros [= <-]. destruct (IH jps eq_refl) as (jps' & -> & Hperm).
    exists (jp :: jps'). by rewrite Hperm.
  - destruct (Unmarshal E q) as [jq|err]; [|done].
    destruct (Unmarshal E p) as [jp|err]; [|done].
    destruct (unmarshalPatches E ps) as [jps|err]; [|done].
    intros [= <-]. exists (jp :: jq :: jps). split; [done|]. apply perm_swap.
  - intros H. destruct (IH1 operations H) as (operations' & H' & Hperm).
    destruct (IH2 operations' H') as (operations'' & H'' & Hperm').
    exists operations''. split; [done|]. by trans operations'.
Qed.

Lemma unmarshalPatches_both E ps ps' :
  ps ≡ₚ ps' →
  (∃ operations operations',
     unmarshalPatches E ps = Ok operations ∧ unmarshalPatches E ps' = Ok operations')
  ∨ (∃ err err', unmarshalPatches E ps = Err err ∧ unmarshalPatches E ps' = Err err').
Proof.
  intros Hperm.
  destruct (unmarshalPatches E ps) as [operations|err] eqn:H.
  - destruct (unmarshalPatches_Permutation E ps ps' Hperm operations H)
      as (operations' & H' & _). left. eauto.
  - destruct (unmarshalPatches E ps') as [operations'|err'] eqn:H'; [|right; eauto].
    destruct (unmarshalPatches_Permutation E ps' ps (symmetry Hperm) operations' H')
      as (operations & H'' & _). congruence.
Qed.

(** C2.  The composition at the end of [mutateElements] does not depend on
    the order in which the patches were collected: on permuted inputs it
    gives the same status, the same resource and the same patches, byte for
    byte and in the same order.  The operations come out in the deterministic
    order, each once, none dropped, and composing the composed sequence again
    changes nothing. *)
Theorem composition_is_order_independent E resource ps ps' :
  ps ≡ₚ ps' →
  let r := composePatches E PatchComposer.FilterAndSortPatches
             {| patchedResource := resource; elementPatches := ps |} in
  let r' := composePatches E PatchComposer.FilterAndSortPatches
              {| patchedResource := resource; elementPatches := ps' |} in
  Status r = Status r'
  ∧ Patches r = Patches r'
  ∧ PatchedResource r = PatchedResource r'
  ∧ (Status r = RuleStatusPass → r = r')
  ∧ (∀ operations operations',
       unmarshalPatches E ps = Ok operations →
       unmarshalPatches E ps' = Ok operations' →
       PatchComposer.FilterAndSortPatches operations
       = PatchComposer.FilterAndSortPatches operations'
       ∧ PatchComposer.FilterAndSortPatches (PatchComposer.FilterAndSortPatches operations)
         = PatchComposer.FilterAndSortPatches operations
       ∧ Sorted PatchComposer.patchLe (PatchComposer.FilterAndSortPatches operations)
       ∧ NoDup (PatchComposer.FilterAndSortPatches operations)
       ∧ ∀ p, p ∈ PatchComposer.FilterAndSortPatches operations ↔ p ∈ operations).
Proof.
  intros Hperm. simpl.
  assert (∀ operations operations',
    unmarshalPatches E ps = Ok operations → unmarshalPatches E ps' = Ok operations' →
    PatchComposer.FilterAndSortPatches operations
    = PatchComposer.FilterAndSortPatches operations') as Hsame.
  { intros operations operations' H H'.
    destruct (unmarshalPatches_Permutation E ps ps' Hperm operations H)
      as (operations'' & H'' & Hp).
    rewrite H' in H''. injection H'' as <-.
    by apply PatchComposerFacts.FilterAndSortPatches_Permutation. }
  destruct (unmarshalPatches_both E ps ps' Hperm)
    as [(operations & operations' & H & H')|(err & err' & H & H')];
    unfold composePatches; simpl; rewrite H, H'.
  - rewrite (Hsame operations operations' H H').
    split_and!; try done.
    intros ops ops' [= <-] [= <-]. split_and!.
    + by apply Hsame.
    + apply PatchComposerFacts.FilterAndSortPatches_idemp.
    + apply PatchComposerFacts.FilterAndSortPatches_sorted.
    + apply PatchComposerFacts.FilterAndSortPatches_NoDup.
    + intros p. apply PatchComposerFacts.FilterAndSortPatches_elem_of.
  - split_and!; done.
Qed.

Lemma composition_is_order_independent_witness :
  let ps := ["remove /spec/containers/0"; "add /metadata/labels/app web";
             "remove /spec/containers/2"] in
  let ps' := ["add /metadata/labels/app web"; "remove /spec/containers/2";
              "remove /spec/containers/0"] in
  ps ≡ₚ ps'
  ∧ Patches (composePatches Examples.demo PatchComposer.FilterAndSortPatches
               {| patchedResource := Examples.podInfo; elementPatches := ps |})
    = Patches (composePatches Examples.demo PatchComposer.FilterAndSortPatches
                 {| patchedResource := Examples.podInfo; elementPatches := ps' |}).
Proof.
  assert (["remove /spec/containers/0"; "add /metadata/labels/app web";
           "remove /spec/containers/2"]
          ≡ₚ ["add /metadata/labels/app web"; "remove /spec/containers/2";
              "remove /spec/containers/0"]) as Hperm.
  { apply (Permutation_cons_append ["add /metadata/labels/app web";
             "remove /spec/containers/2"] "remove /spec/containers/0"). }
  split; [exact Hperm|].
  exact (proj1 (proj2 (composition_is_order_independent Examples.demo Examples.podInfo
    _ _ Hperm))).
Defined.

(** The composed sequence of the example: the label first, then the
    containers from the highest index down. *)
Example composition_example :
  Patches (composePatches Examples.demo PatchComposer.FilterAndSortPatches
             {| patchedResource := Examples.podInfo;
                elementPatches := ["remove /spec/containers/0";
                                   "add /metadata/labels/app web";
                                   "remove /spec/containers/2";
                                   "remove /spec/containers/0"] |})
  = ["add /metadata/labels/app web"; "remove /spec/containers/2";
     "remove /spec/containers/0"].
Proof. vm_compute. reflexivity. Qed.

(** ** C9 *)

Lemma string_app_empty_r (s : string) : s +:+ "" = s.
Proof. induction s as [|a s IH]; simpl; [done|]. unfold String.app in *. simpl. by rewrite IH. Qed.

(** C9.  [buildRuleResponse] keeps the status and the rule name.  On Pass it
    attaches the patches, attaches the patched target when the rule has
    targets, and writes the message from the kind, name and namespace of the
    patched resource, leaving the namespace clause out when the namespace is
    empty.  On any other status it attaches neither and passes the message
    of the outcome through. *)
Theorem buildRuleResponse_attaches_on_Pass rule mutateResp info :
  let resp := buildRuleResponse rule mutateResp info in
  let r := PatchedResource mutateResp in
  responseStatus resp = Status mutateResp
  ∧ responseName resp = Name rule
  ∧ responseRuleType resp = Mutation
  ∧ (if decide (Status mutateResp = RuleStatusPass)
     then responsePatches resp = Patches mutateResp
          ∧ responsePatchedTarget resp
            = (match Targets rule with
               | [] => None
               | _ :: _ =>
                   Some {| targetResource := r;
                           targetGVR := parentResourceGVR info;
                           targetSubresource := subresource info |}
               end)
          ∧ responseMessage resp = buildSuccessMessage r
     else responsePatches resp = []
          ∧ responsePatchedTarget resp = None
          ∧ responseMessage resp = Message mutateResp)
  ∧ buildSuccessMessage r
    = match Object r with
      | None => "mutated resource"
      | Some _ =>
          "mutated " +:+ GetKind r +:+ "/" +:+ GetName r
            +:+ (if decide (GetNamespace r = "") then ""
                 else " in namespace " +:+ GetNamespace r)
      end.
Proof.
  simpl. unfold buildRuleResponse.
  repeat split; try by repeat case_decide.
  - case_decide; [|done]. repeat split.
    + by case_decide.
    + destruct (Targets rule); by case_decide.
    + by case_decide.
  - unfold buildSuccessMessage. destruct (Object (PatchedResource mutateResp)); [|done].
    case_decide; [|done]. by rewrite string_app_empty_r.
Qed.

Example buildSuccessMessage_namespaced :
  buildSuccessMessage Examples.pod = "mutated Pod/web in namespace prod".
Proof. reflexivity. Qed.

Example buildSuccessMessage_cluster_scoped :
  buildSuccessMessage
    {| Object := Some [("kind", JString "Namespace");
                       ("metadata", JObject [("name", JString "prod")])] |}
  = "mutated Namespace/prod".
Proof. reflexivity. Qed.

(** ** C10 *)

(** C10.  After a declaration that was applied, [mutateForEach] logs the
    patched resource and adds it to the context the declaration started
    from; when adding fails the error is logged and nothing else changes:
    the count and the patches are those of a successful addition.  The
    outcome of the whole evaluation, and the context it leaves, are those of
    an evaluation in which [AddResource] leaves the same documents and
    reports no error; the traces differ in logged errors only. *)
Theorem AddResource_failure_is_only_logged E f w :
  let run := mutateForEach E f w in
  let quiet := mutateForEach (silenceAddResource E) f w in
  run.1 = quiet.1
  ∧ jsonContext run.2 = jsonContext quiet.2
  ∧ withoutLoggedErrors (trace run.2) = withoutLoggedErrors (trace quiet.2)
  ∧ (∀ fe s w1 elements,
       EvaluateList E (List fe) (currentRaw w1) = Ok elements →
       let out := mutateElements E fe (mutator s) elements w1 in
       let added := AddResource E (Object (PatchedResource out.1)) (currentRaw w1) in
       Status out.1 ≠ RuleStatusError →
       ∃ s',
         mutateSpec E (mutateElements E) fe s w1
         = (Continue s',
            {| jsonContext := setRaw (jsonContext w1) added.1;
               trace := trace out.2
                 ++ InfoPatchedResource (PatchedResource out.1)
                 :: match added.2 with
                    | Some err => [LoggedError err "failed to update resource in context"]
                    | None => []
                    end |})
         ∧ applyCount s' = S (applyCount s)
         ∧ allPatches s' = allPatches s ++ Patches out.1).
Proof.
  simpl. split; [|split; [|split]].
  - apply mutateForEachOver_agree; [|apply similar_refl].
    apply Forall_forall. intros fe _. apply mutateElements_agree.
  - apply mutateForEachOver_agree; [|apply similar_refl].
    apply Forall_forall. intros fe _. apply mutateElements_agree.
  - apply mutateForEachOver_agree; [|apply similar_refl].
    apply Forall_forall. intros fe _. apply mutateElements_agree.
  - intros fe s w1 elements Hlist Hst. unfold mutateSpec. rewrite Hlist.
    pose proof (mutateElements_context E fe (mutator s) elements w1) as Hctx.
    pose proof (mutateElements_unfold E fe (mutator s) elements w1) as Hunfold.
    pose proof (mutateElementsWith_status E PatchComposer.FilterAndSortPatches
      (mutateForEachOver E (mutateElements E)) (mutator s) fe elements w1) as Hskip.
    rewrite <- Hunfold in Hskip.
    destruct (mutateElements E fe (mutator s) elements w1) as [resp w2]; simpl in *.
    rewrite decide_False by done. rewrite decide_True by done.
    change (currentRaw (emit ?ev ?w')) with (currentRaw w').
    unfold currentRaw. rewrite Hctx.
    destruct (AddResource E _ _) as [raw err]; simpl.
    eexists. split; [|split].
    + f_equal. unfold onContext, emit; simpl. rewrite Hctx.
      destruct err; simpl; [|done]. by rewrite <- (assoc_L (++)).
    + by case_decide.
    + case_decide; [done|]. simpl.
      destruct (Patches resp); simpl in *; [by rewrite app_nil_r|lia].
Qed.

Lemma AddResource_failure_is_only_logged_witness :
  let f := {| rule := Examples.addLabels; foreach := [Examples.volumes];
              resource := {| unstructured := emptyUnstructured; subresource := "";
                             parentResourceGVR := parentResourceGVR Examples.podInfo |};
              nesting := 0 |} in
  trace (mutateForEach Examples.demo f Examples.admission).2
  = [InfoPatchedResource emptyUnstructured;
     LoggedError "nil resource" "failed to update resource in context"]
  ∧ (mutateForEach Examples.demo f Examples.admission).1
    = (mutateForEach (silenceAddResource Examples.demo) f Examples.admission).1.
Proof.
  split; [reflexivity|].
  exact (proj1 (AddResource_failure_is_only_logged Examples.demo _ Examples.admission)).
Defined.

(** * Further properties of the evaluator *)

(** ** What the evaluator returns *)

(** X1.  [mutateElements] never returns Skip, and an outcome of status Pass
    is the one built after the loop: its message is empty. *)
Theorem mutateElements_Pass_Fail_or_Error E fe f elements w :
  let r := (mutateElements E fe f elements w).1 in
  Status r ≠ RuleStatusSkip
  ∧ (Status r = RuleStatusPass → Message r = "").
Proof.
  simpl. split; [apply mutateElements_not_Skip|].
  rewrite mutateElements_unfold. unfold mutateElementsWith.
  pose proof (elementsLoop_Return E (mutateForEachOver E (mutateElements E)) f fe 0
    (processingOrder fe elements)
    {| patchedResource := resource f; elementPatches := [] |}
    (onContext Checkpoint w)) as Hret.
  destruct (elementsLoop E _ f fe 0 _ _ _) as [[r|v] w']; simpl in *.
  - intros Hpass. destruct (Hret r eq_refl); congruence.
  - unfold composePatches.
    destruct (unmarshalPatches E _); [|done].
    by destruct (marshalPatches E _).
Qed.

Lemma mutateElements_Pass_Fail_or_Error_witness :
  Message (mutateElements Examples.demo Examples.containers
             (Examples.mutatorOf [Examples.containers])
             [JString "nginx"; JNull; JString "sidecar"] Examples.admission).1 = "".
Proof.
  apply (mutateElements_Pass_Fail_or_Error Examples.demo Examples.containers
    (Examples.mutatorOf [Examples.containers])
    [JString "nginx"; JNull; JString "sidecar"] Examples.admission).
  reflexivity.
Defined.

Section Applied.

Variable E : Collaborators.
Variable mutElems : ForEachMutation → forEachMutator → list JSON → World → Response * World.

Hypothesis never_Skip : ∀ fe f elements w,
  Status (mutElems fe f elements w).1 ≠ RuleStatusSkip.

Lemma mutateSpec_applied fe s w s' :
  (mutateSpec E mutElems fe s w).1 = Continue s' →
  ∃ elements,
    EvaluateList E (List fe) (currentRaw w) = Ok elements
    ∧ applyCount s' = S (applyCount s)
    ∧ unstructured (resource (mutator s'))
      = lastPatched (unstructured (resource (mutator s)))
          [(mutElems fe (mutator s) elements w).1].
Proof.
  unfold mutateSpec.
  destruct (EvaluateList E _ _) as [elements|err]; [|done].
  intros Hs. exists elements. split; [done|]. revert Hs.
  pose proof (never_Skip fe (mutator s) elements w) as Hst.
  destruct (mutElems fe (mutator s) elements w) as [resp w1]; simpl in *.
  case_decide; [done|]. case_decide; [|done].
  destruct (AddResource E _ _) as [raw err]; simpl.
  case_decide; by intros [= <-].
Qed.

Lemma mutateSpecs_applied fes s w s' :
  (mutateSpecs E mutElems fes s w).1 = Continue s' →
  applyCount s' = applyCount s + length fes
  ∧ unstructured (resource (mutator s'))
    = lastPatched (unstructured (resource (mutator s)))
        (declarationOutcomes E mutElems fes s w).
Proof.
  revert s w. induction fes as [|fe rest IH]; intros s w; simpl.
  { intros [= <-]. by rewrite Nat.add_0_r. }
  pose proof (mutateSpec_applied fe s w) as Hfe.
  destruct (mutateSpec E mutElems fe s w) as [[r|s1] w1]; simpl in *; [done|].
  destruct (Hfe s1 eq_refl) as (elements & -> & Hcount & Hres).
  intros Hrest. destruct (IH s1 w1 Hrest) as (Hc & Hr).
  simpl. rewrite Hc, Hr, Hcount, Hres. split; [lia|done].
Qed.

End Applied.

Lemma mutateSpec_Return_form E mutElems fe s w r :
  (mutateSpec E mutElems fe s w).1 = Return r →
  r = NewErrorResponse "failed to mutate elements" None
  ∨ ∃ err, r = NewErrorResponse
               ("failed to evaluate list " +:+ List fe +:+ ": " +:+ err) (Some err).
Proof.
  unfold mutateSpec.
  destruct (EvaluateList E _ _) as [elements|err]; [|intros [= <-]; eauto].
  destruct (mutElems fe (mutator s) elements w) as [resp w1].
  case_decide; [intros [= <-]; eauto|].
  case_decide; [|done].
  by destruct (AddResource E _ _) as [raw err].
Qed.

Lemma mutateSpecs_Return_form E mutElems fes s w r :
  (mutateSpecs E mutElems fes s w).1 = Return r →
  r = NewErrorResponse "failed to mutate elements" None
  ∨ ∃ fe err, fe ∈ fes
      ∧ r = NewErrorResponse
              ("failed to evaluate list " +:+ List fe +:+ ": " +:+ err) (Some err).
Proof.
  revert s w. induction fes as [|fe rest IH]; intros s w; simpl; [done|].
  pose proof (mutateSpec_Return_form E mutElems fe s w) as H.
  destruct (mutateSpec E mutElems fe s w) as [[r'|s'] w']; simpl in *.
  - intros [= <-]. destruct (H r' eq_refl) as [?|(err & ?)]; [by left|].
    right. exists fe, err. split; [apply list_elem_of_here|done].
  - intros Hrest. destruct (IH s' w' Hrest) as [?|(fe' & err & Hin & ?)]; [by left|].
    right. exists fe', err. split; [by apply list_elem_of_further|done].
Qed.

(** X2.  [mutateForEach] returns Pass, Skip or Error, never Fail, whatever
    the element mutations report; it returns Skip exactly when the mutator
    has no declaration, and then the outcome is the mutator's own resource
    with no patches. *)
Theorem mutateForEach_Pass_Skip_or_Error E f w :
  let r := (mutateForEach E f w).1 in
  Status r ≠ RuleStatusFail
  ∧ (Status r = RuleStatusSkip ↔ foreach f = [])
  ∧ (Status r = RuleStatusSkip →
     r = NewResponse RuleStatusSkip (unstructured (resource f)) [] "0 elements processed").
Proof.
  simpl. split; [apply mutateForEachOver_not_Fail|].
  unfold mutateForEach, mutateForEachOver.
  pose proof (mutateSpecs_Return E (mutateElements E) (foreach f) (initialVars f) w) as Hret.
  pose proof (mutateSpecs_applied E (mutateElements E) (mutateElements_not_Skip E)
    (foreach f) (initialVars f) w) as Happ.
  unfold initialVars in *.
  destruct (foreach f) as [|fe rest] eqn:Hfes; simpl in *; [by split|].
  destruct (mutateSpec E (mutateElements E) fe _ w) as [[r|s1] w1]; simpl in *.
  { destruct (Hret r eq_refl) as (msg & cause & ->). split; [by split|done]. }
  destruct (mutateSpecs E (mutateElements E) rest s1 w1) as [[r|s] w']; simpl in *.
  { destruct (Hret r eq_refl) as (msg & cause & ->). split; [by split|done]. }
  destruct (Happ s eq_refl) as (Hc & _). unfold forEachResponse.
  rewrite Hc. simpl. split; [by split|done].
Qed.

Lemma mutateForEach_Pass_Skip_or_Error_witness :
  (mutateForEach Examples.demo (Examples.mutatorOf []) Examples.admission).1
  = NewResponse RuleStatusSkip Examples.pod [] "0 elements processed".
Proof.
  apply (mutateForEach_Pass_Skip_or_Error Examples.demo (Examples.mutatorOf [])
    Examples.admission).
  reflexivity.
Defined.

(** X3.  An Error outcome of [mutateForEach] is one of two: the report of a
    list of one of the declarations that failed to evaluate, with the
    expression and the cause, or "failed to mutate elements".  Either way it
    carries no resource and no patches: what earlier declarations and
    elements produced is not in it. *)
Theorem mutateForEach_Error_outcomes E f w :
  let r := (mutateForEach E f w).1 in
  Status r = RuleStatusError →
  (r = NewErrorResponse "failed to mutate elements" None
   ∨ ∃ fe err, fe ∈ foreach f
       ∧ r = NewErrorResponse
               ("failed to evaluate list " +:+ List fe +:+ ": " +:+ err) (Some err))
  ∧ Patches r = []
  ∧ PatchedResource r = emptyUnstructured.
Proof.
  simpl. unfold mutateForEach, mutateForEachOver.
  pose proof (mutateSpecs_Return_form E (mutateElements E) (foreach f)
    {| mutator := f; applyCount := 0; allPatches := [] |} w) as Hret.
  destruct (mutateSpecs E (mutateElements E) (foreach f) _ w) as [[r|s] w']; simpl in *.
  - intros _. destruct (Hret r eq_refl) as [->|(fe & err & Hin & ->)].
    + split; [by left|done].
    + split; [|done]. right. by exists fe, err.
  - rewrite forEachResponse_status. by case_decide.
Qed.

Lemma mutateForEach_Error_outcomes_witness :
  Patches (mutateForEach Examples.demo
             (Examples.mutatorOf [Examples.containers; Examples.unreachable])
             Examples.admission).1 = []
  ∧ PatchedResource (mutateForEach Examples.demo
                       (Examples.mutatorOf [Examples.containers; Examples.unreachable])
                       Examples.admission).1 = emptyUnstructured.
Proof.
  apply (mutateForEach_Error_outcomes Examples.demo
    (Examples.mutatorOf [Examples.containers; Examples.unreachable]) Examples.admission).
  reflexivity.
Defined.

(** X4.  On a list of elements that are all nil, the empty list among them,
    [mutateElements] does nothing: it returns Pass with the mutator's
    resource, no patches and an empty message, binds nothing, logs nothing,
    and leaves the context as it was. *)
Theorem nil_elements_are_passed_over E fe f elements w :
  Forall (λ element, isNil element = true) elements →
  mutateElements E fe f elements w
  = (NewResponse RuleStatusPass (unstructured (resource f)) [] "", w).
Proof.
  intros Hnil. rewrite mutateElements_unfold. unfold mutateElementsWith.
  assert (Forall (λ element, isNil element = true) (processingOrder fe elements)) as Horder.
  { unfold processingOrder, InvertedElement.
    destruct (RawPatchStrategicMerge fe); [|done]. by apply List.Forall_rev. }
  assert (∀ index v w0,
    elementsLoop E (mutateForEachOver E (mutateElements E)) f fe index
      (processingOrder fe elements) v w0 = (Continue v, w0)) as ->.
  { induction Horder as [|e rest He _ IH]; intros index v w0; simpl; [done|].
    unfold mutateElement. by rewrite He, IH. }
  by destruct w as [[raw stack] t].
Qed.

Lemma nil_elements_are_passed_over_witness :
  mutateElements Examples.demo Examples.containersStrategicMerge
    (Examples.mutatorOf []) [JNull; JNull] Examples.admission
  = (NewResponse RuleStatusPass Examples.pod [] "", Examples.admission).
Proof.
  apply (nil_elements_are_passed_over Examples.demo Examples.containersStrategicMerge
    (Examples.mutatorOf []) [JNull; JNull] Examples.admission).
  repeat constructor.
Defined.

(** ** What the evaluator leaves in the context *)

Lemma setRaw_current c : setRaw c (jsonRaw c) = c.
Proof. by destruct c. Qed.

Lemma setRaw_setRaw c raw raw' : setRaw (setRaw c raw) raw' = setRaw c raw'.
Proof. done. Qed.

(** X5.  [mutateForEach] leaves the stack of checkpoints as it found it,
    however it returns, and the document it leaves is the one it found with
    resources added by [AddResource], nothing else: what was bound or loaded
    for an element is gone. *)
Theorem mutateForEach_leaves_added_resources_only E f w :
  ∃ raw,
    jsonContext (mutateForEach E f w).2 = setRaw (jsonContext w) raw
    ∧ rtc (λ before after, ∃ object, after = (AddResource E object before).1)
          (currentRaw w) raw.
Proof.
  unfold mutateForEach, mutateForEachOver.
  assert (∀ fes s w0, ∃ raw,
    jsonContext (mutateSpecs E (mutateElements E) fes s w0).2 = setRaw (jsonContext w0) raw
    ∧ rtc (λ before after, ∃ object, after = (AddResource E object before).1)
          (currentRaw w0) raw) as Hloop.
  { induction fes as [|fe rest IH]; intros s w0; simpl.
    { exists (currentRaw w0). split; [by rewrite setRaw_current|done]. }
    pose proof (mutateSpec_context E fe s w0) as Hfe.
    destruct (mutateSpec E (mutateElements E) fe s w0) as [[r|s1] w1]; simpl in *.
    - destruct Hfe as [->|(object & ->)].
      + exists (currentRaw w0). split; [by rewrite setRaw_current|done].
      + eexists. split; [done|]. apply rtc_once. by exists object.
    - destruct (IH s1 w1) as (raw & -> & Hrtc).
      destruct Hfe as [Hctx|(object & Hctx)].
      + exists raw. unfold currentRaw in *. rewrite Hctx in *. done.
      + exists raw. unfold currentRaw in *. rewrite Hctx in *. simpl in *.
        split; [done|]. eapply rtc_l; [|done]. by exists object. }
  destruct (Hloop (foreach f) {| mutator := f; applyCount := 0; allPatches := [] |} w)
    as (raw & Hctx & Hrtc).
  exists raw. split; [|done].
  by destruct (mutateSpecs E (mutateElements E) (foreach f) _ w) as [[r|s] w'].
Qed.

(** ** How the loop of [mutateElements] treats an outcome *)

Lemma boundElements_app index l1 l2 :
  boundElements index (l1 ++ l2)
  = boundElements index l1 ++ boundElements (index + length l1) l2.
Proof.
  revert index. induction l1 as [|x rest IH]; intros index; simpl.
  - by rewrite Nat.add_0_r.
  - rewrite IH. replace (S index + length rest) with (index + S (length rest)) by lia.
    by destruct (isNil x).
Qed.

(** X6.  When the outcome of an element is Fail or Error, [mutateElements]
    returns that very outcome, without the patches collected from the
    elements before it.  The elements after it are not evaluated: none of
    them is bound, and the outcome and the world are those of the list cut
    after the failing element. *)
Theorem failing_element_ends_the_declaration
    E f fe elements w epre e erest v w2 raw1 raw2 mutateResp :
  let v0 := {| patchedResource := resource f; elementPatches := [] |} in
  processingOrder fe elements = epre ++ e :: erest →
  elementsLoopOf E f fe 0 epre v0 (onContext Checkpoint w) = (Continue v, w2) →
  isNil e = false →
  AddElementToContext E (currentRaw w) e (length epre) (nesting f) = (raw1, None) →
  contextLoader E (Context fe) raw1 = (raw2, None) →
  CheckPreconditions E raw2 (AnyAllConditions fe) = Ok true →
  elementOutcome E (mutateForEachOver E (mutateElements E)) f fe (length epre) e v w2
    raw1 raw2 = Some mutateResp →
  Status mutateResp = RuleStatusFail ∨ Status mutateResp = RuleStatusError →
  (mutateElements E fe f elements w).1 = mutateResp
  ∧ boundAt (nesting f) (trace (mutateElements E fe f elements w).2)
    = boundAt (nesting f) (trace w) ++ boundElements 0 (epre ++ [e])
  ∧ ∀ cut, processingOrder fe cut = epre ++ [e] →
      mutateElements E fe f elements w = mutateElements E fe f cut w.
Proof.
  intros v0 Horder Hloop Hnil Hbind Hload Hcheck Hout Hst.
  pose proof (elementsLoopOf_stored E f fe 0 epre v0 w v w2 Hloop) as Hstored.
  pose proof (mutateElement_outcome E (mutateForEachOver E (mutateElements E)) f fe
    (length epre) e v w2 _ _ Hnil Hstored raw1 raw2 mutateResp Hbind Hload Hcheck Hout)
    as Hbody.
  rewrite decide_True in Hbody by done.
  pose proof (mutateElement_boundAt E (mutateForEachOver E (mutateElements E)) fe
    (λ fes m w' k _ Hk, nested_quiet E fes m w' k Hk) f (length epre) e v w2 (nesting f)
    ltac:(lia)) as Hbound.
  rewrite decide_True in Hbound by done.
  destruct (elementsLoop_boundAt E (mutateForEachOver E (mutateElements E)) fe
    (λ fes m w' k _ Hk, nested_quiet E fes m w' k Hk) f 0 epre v0 (onContext Checkpoint w))
    as (processed & Hpre & _ & Hall).
  unfold elementsLoopOf in Hloop. rewrite Hloop in Hpre, Hall. simpl in Hpre, Hall.
  rewrite (Hall v eq_refl) in Hpre. clear Hall.
  assert (∀ rest, elementsLoop E (mutateForEachOver E (mutateElements E)) f fe 0
            (epre ++ e :: rest) v0 (onContext Checkpoint w)
          = (Return mutateResp,
             (mutateElement E (mutateForEachOver E (mutateElements E)) f fe
                (length epre) e v w2).2)) as Hstop.
  { intros rest. rewrite elementsLoop_app, Hloop. simpl.
    by destruct (mutateElement E _ f fe (length epre) e v w2) as [[r|v'] w3];
      simplify_eq/=. }
  split_and!.
  - rewrite mutateElements_unfold. unfold mutateElementsWith.
    by rewrite Horder, Hstop.
  - rewrite mutateElements_unfold. unfold mutateElementsWith.
    rewrite Horder, Hstop. simpl. rewrite Hbound, Hpre.
    rewrite boundElements_app. simpl length.
    by rewrite (assoc_L (++)).
  - intros cut Hcut. rewrite !mutateElements_unfold. unfold mutateElementsWith.
    by rewrite Horder, Hcut, !Hstop.
Qed.

Lemma failing_element_ends_the_declaration_witness :
  (mutateElements Examples.rejecting Examples.containers
     (Examples.mutatorOf [Examples.containers])
     [JString "nginx"; JNull; JString "sidecar"] Examples.admission).1
  = NewResponse RuleStatusFail (Examples.label "nginx" Examples.pod) []
      "sidecars are not allowed".
Proof.
  refine (proj1 (failing_element_ends_the_declaration Examples.rejecting
    (Examples.mutatorOf [Examples.containers]) Examples.containers
    [JString "nginx"; JNull; JString "sidecar"] Examples.admission
    [JString "nginx"; JNull] (JString "sidecar") [] _ _ _ _ _
    eq_refl eq_refl eq_refl eq_refl eq_refl eq_refl eq_refl _)).
  by left.
Defined.

(** X7.  An outcome that is neither Fail nor Error is adopted only if it has
    patches: then its resource becomes the resource of the elements that
    follow and its patches are collected.  An outcome without patches leaves
    the resource and the collected patches as they were, whatever resource
    it carries, and the loop goes on. *)
Theorem element_outcome_is_adopted_with_its_patches
    E f fe elements w epre e erest v w2 raw1 raw2 mutateResp :
  let v0 := {| patchedResource := resource f; elementPatches := [] |} in
  processingOrder fe elements = epre ++ e :: erest →
  elementsLoopOf E f fe 0 epre v0 (onContext Checkpoint w) = (Continue v, w2) →
  isNil e = false →
  AddElementToContext E (currentRaw w) e (length epre) (nesting f) = (raw1, None) →
  contextLoader E (Context fe) raw1 = (raw2, None) →
  CheckPreconditions E raw2 (AnyAllConditions fe) = Ok true →
  elementOutcome E (mutateForEachOver E (mutateElements E)) f fe (length epre) e v w2
    raw1 raw2 = Some mutateResp →
  Status mutateResp ≠ RuleStatusFail →
  Status mutateResp ≠ RuleStatusError →
  (elementsLoopOf E f fe 0 (epre ++ [e]) v0 (onContext Checkpoint w)).1
  = Continue (adopt v mutateResp)
  ∧ (Patches mutateResp = [] → adopt v mutateResp = v)
  ∧ (elementsLoopOf E f fe 0 (processingOrder fe elements) v0 (onContext Checkpoint w)).1
    = (elementsLoopOf E f fe (S (length epre)) erest (adopt v mutateResp)
         (elementsLoopOf E f fe 0 (epre ++ [e]) v0 (onContext Checkpoint w)).2).1.
Proof.
  intros v0 Horder Hloop Hnil Hbind Hload Hcheck Hout Hfail Herror.
  pose proof (elementsLoopOf_stored E f fe 0 epre v0 w v w2 Hloop) as Hstored.
  pose proof (mutateElement_outcome E (mutateForEachOver E (mutateElements E)) f fe
    (length epre) e v w2 _ _ Hnil Hstored raw1 raw2 mutateResp Hbind Hload Hcheck Hout)
    as Hbody.
  rewrite decide_False in Hbody by (intros [?|?]; done).
  fold (adopt v mutateResp) in Hbody.
  assert ((if decide (0 < length (Patches mutateResp))
           then Continue
                  {| patchedResource :=
                       withUnstructured (patchedResource v) (PatchedResource mutateResp);
                     elementPatches := elementPatches v ++ Patches mutateResp |}
           else Continue v) = Continue (adopt v mutateResp)) as Hadopt.
  { unfold adopt. by case_decide. }
  rewrite Hadopt in Hbody. clear Hadopt.
  split_and!.
  - unfold elementsLoopOf in *. rewrite elementsLoop_app, Hloop. simpl.
    by destruct (mutateElement E _ f fe (length epre) e v w2) as [[r|v'] w3];
      simplify_eq/=.
  - intros Hnone. unfold adopt. rewrite Hnone. by rewrite decide_False by (simpl; lia).
  - rewrite Horder. unfold elementsLoopOf in *.
    rewrite !elementsLoop_app, Hloop. simpl.
    by destruct (mutateElement E _ f fe (length epre) e v w2) as [[r|v'] w3];
      simplify_eq/=.
Qed.

Lemma element_outcome_is_adopted_with_its_patches_witness :
  (elementsLoopOf Examples.demo (Examples.mutatorOf [Examples.containers])
     Examples.containers 0 [JNumber 7]
     {| patchedResource := Examples.podInfo; elementPatches := [] |}
     (onContext Checkpoint Examples.admission)).1
  = Continue {| patchedResource := Examples.podInfo; elementPatches := [] |}.
Proof.
  refine (proj1 (element_outcome_is_adopted_with_its_patches Examples.demo
    (Examples.mutatorOf [Examples.containers]) Examples.containers
    [JNumber 7] Examples.admission [] (JNumber 7) [] _ _ _ _ _
    eq_refl eq_refl eq_refl eq_refl eq_refl eq_refl eq_refl _ _)); discriminate.
Defined.

(** ** What [mutateForEach] returns as the resource *)

(** X8.  The resource of an outcome of [mutateForEach] that is not Error is
    the resource of the last declaration whose outcome had patches, and the
    mutator's own resource when there was none. *)
Theorem mutateForEach_returns_last_patched E f w :
  let r := (mutateForEach E f w).1 in
  Status r ≠ RuleStatusError →
  PatchedResource r
  = lastPatched (unstructured (resource f))
      (declarationOutcomes E (mutateElements E) (foreach f) (initialVars f) w).
Proof.
  simpl. unfold mutateForEach, mutateForEachOver.
  pose proof (mutateSpecs_Return E (mutateElements E) (foreach f) (initialVars f) w) as Hret.
  pose proof (mutateSpecs_applied E (mutateElements E) (mutateElements_not_Skip E)
    (foreach f) (initialVars f) w) as Happ.
  unfold initialVars in *.
  destruct (mutateSpecs E (mutateElements E) (foreach f) _ w) as [[r|s] w']; simpl in *.
  - by destruct (Hret r eq_refl) as (msg & cause & ->).
  - intros _. destruct (Happ s eq_refl) as (_ & Hres). simpl in Hres.
    unfold forEachResponse. by case_decide.
Qed.

Lemma mutateForEach_returns_last_patched_witness :
  PatchedResource (mutateForEach Examples.demo
    (Examples.mutatorOf [Examples.containers; Examples.volumes]) Examples.admission).1
  = Examples.label "sidecar" (Examples.label "nginx" Examples.pod).
Proof.
  etrans.
  - apply (mutateForEach_returns_last_patched Examples.demo
      (Examples.mutatorOf [Examples.containers; Examples.volumes]) Examples.admission).
    vm_compute. discriminate.
  - reflexivity.
Defined.

(** ** Nesting *)

(** X9.  An evaluation binds elements at the depth of its mutator and, for
    nested declarations, deeper: [mutateForEach] binds no element at a depth
    less than the depth of the mutator. *)
Theorem mutateForEach_binds_no_shallower E f w k :
  k < nesting f →
  boundAt k (trace (mutateForEach E f w).2) = boundAt k (trace w).
Proof. intros Hk. by apply nested_quiet. Qed.

Lemma mutateForEach_binds_no_shallower_witness :
  boundAt 0 (trace (mutateForEach Examples.demo
                      (NestedExamples.inner [Examples.containers]) Examples.admission).2)
  = [].
Proof.
  apply (mutateForEach_binds_no_shallower Examples.demo
    (NestedExamples.inner [Examples.containers]) Examples.admission 0).
  simpl. lia.
Defined.

(** The elements of a nested declaration are bound one level down, once for
    every element of the enclosing declaration. *)
Example nested_elements_are_bound_deeper :
  let t := trace (mutateForEach Examples.demo
                    (Examples.mutatorOf [NestedExamples.perContainer])
                    Examples.admission).2 in
  boundAt 0 t = [(0, JString "nginx"); (2, JString "sidecar")]
  ∧ boundAt 1 t = [(0, JString "nginx"); (2, JString "sidecar");
                   (0, JString "nginx"); (2, JString "sidecar")].
Proof. vm_compute. done. Qed.

(** ** Positions *)

Lemma boundElements_elem_of index elements i e :
  (i, e) ∈ boundElements index elements
  ↔ isNil e = false ∧ index ≤ i ∧ elements !! (i - index) = Some e.
Proof.
  revert index. induction elements as [|x rest IH]; intros index; simpl.
  { split; [by intros ?%elem_of_nil|by intros (_ & _ & ?)]. }
  assert ((i, e) ∈ boundElements (S index) rest
          ↔ isNil e = false ∧ index < i ∧ (x :: rest) !! (i - index) = Some e) as Hrest.
  { rewrite IH. split.
    - intros (? & ? & Hl). split_and!; [done|lia|].
      by replace (i - index) with (S (i - S index)) by lia.
    - intros (? & ? & Hl). split_and!; [done|lia|].
      by replace (i - index) with (S (i - S index)) in Hl by lia. }
  destruct (isNil x) eqn:Hx.
  - rewrite Hrest. split; [intros (? & ? & ?); split_and!; [done|lia|done]|].
    intros (He & Hle & Hl). split_and!; [done| |done].
    destruct (decide (i = index)) as [->|]; [|lia].
    rewrite Nat.sub_diag in Hl. simpl in Hl. congruence.
  - rewrite elem_of_cons, Hrest. split.
    + intros [[= -> ->]|(? & ? & ?)].
      * by rewrite Nat.sub_diag.
      * split_and!; [done|lia|done].
    + intros (He & Hle & Hl). destruct (decide (i = index)) as [->|]; [|right].
      * left. rewrite Nat.sub_diag in Hl. simpl in Hl. congruence.
      * split_and!; [done|lia|done].
Qed.

Lemma boundElements_NoDup index elements : NoDup (boundElements index elements).*1.
Proof.
  revert index. induction elements as [|x rest IH]; intros index; simpl; [constructor|].
  destruct (isNil x); [apply IH|]. simpl. constructor; [|apply IH].
  intros ((i & e) & Heq & Hin%boundElements_elem_of)%list_elem_of_fmap.
  simpl in *. lia.
Qed.

(** X10.  When [mutateElements] returns Pass it has bound every element that
    is not nil, once, under a position that counts the nil elements too: the
    position in the declared list and, for a declaration with a strategic
    merge patch, the position counted from the end of that list. *)
Theorem bound_positions E fe f elements w :
  let run := mutateElements E fe f elements w in
  Status run.1 = RuleStatusPass →
  ∃ processed,
    boundAt (nesting f) (trace run.2) = boundAt (nesting f) (trace w) ++ processed
    ∧ NoDup processed.*1
    ∧ ∀ i e, (i, e) ∈ processed ↔
        isNil e = false
        ∧ i < length elements
        ∧ elements !! (match RawPatchStrategicMerge fe with
                       | Some _ => length elements - S i
                       | None => i
                       end) = Some e.
Proof.
  simpl. intros Hpass. rewrite mutateElements_unfold in *.
  destruct (mutateElementsWith_boundAt E PatchComposer.FilterAndSortPatches
    (mutateForEachOver E (mutateElements E)) fe
    (λ fes m w' k _ Hk, nested_quiet E fes m w' k Hk) f elements w)
    as (processed & Htrace & _ & Hall).
  exists processed. split; [done|]. rewrite (Hall Hpass). split.
  - apply boundElements_NoDup.
  - intros i e. rewrite boundElements_elem_of, Nat.sub_0_r.
    unfold processingOrder, InvertedElement.
    destruct (RawPatchStrategicMerge fe).
    + rewrite rev_alt. fold (reverse elements). rewrite reverse_lookup_Some.
      split; [intros (? & _ & ? & ?)|intros (? & ? & ?)]; split_and!; done || lia.
    + split; [intros (? & _ & Hl)|intros (? & ? & ?)]; split_and!; try done; try lia.
      by apply lookup_lt_Some in Hl.
Qed.

Lemma bound_positions_witness :
  ∃ processed,
    boundAt 0 (trace (mutateElements Examples.demo Examples.containersStrategicMerge
                        (Examples.mutatorOf []) [JString "nginx"; JNull; JString "sidecar"]
                        Examples.admission).2) = processed
    ∧ ((0, JString "sidecar") ∈ processed).
Proof.
  destruct (bound_positions Examples.demo Examples.containersStrategicMerge
    (Examples.mutatorOf []) [JString "nginx"; JNull; JString "sidecar"]
    Examples.admission) as (processed & Htrace & _ & Hin); [reflexivity|].
  exists processed. split; [exact Htrace|].
  apply Hin. split_and!; [reflexivity|simpl; lia|reflexivity].
Defined.

(** ** The rule response of an evaluation *)

(** X11.  The rule response built from an outcome of [mutateForEach] is never
    Fail.  It is Skip only for a mutator without declarations, with the
    message "0 elements processed" and no patches; on Error it has no
    patches and no patched target; on Pass its message is the success
    message of the resource, so that the count of declarations in the
    message of the outcome is not in it. *)
Theorem rule_response_of_evaluation E f w info :
  let r := (mutateForEach E f w).1 in
  let resp := buildRuleResponse (rule f) r info in
  responseStatus resp ≠ RuleStatusFail
  ∧ (responseStatus resp = RuleStatusSkip →
     foreach f = []
     ∧ responseMessage resp = "0 elements processed"
     ∧ responsePatches resp = []
     ∧ responsePatchedTarget resp = None)
  ∧ (responseStatus resp = RuleStatusError →
     responsePatches resp = []
     ∧ responsePatchedTarget resp = None
     ∧ responseMessage resp = Message r)
  ∧ (responseStatus resp = RuleStatusPass →
     responseMessage resp = buildSuccessMessage (PatchedResource r)
     ∧ responsePatches resp = Patches r).
Proof.
  simpl.
  pose proof (mutateForEachOver_not_Fail E (mutateElements E) (foreach f) f w) as Hfail.
  pose proof (mutateSpecs_Return E (mutateElements E) (foreach f) (initialVars f) w) as Hret.
  pose proof (mutateSpecs_applied E (mutateElements E) (mutateElements_not_Skip E)
    (foreach f) (initialVars f) w) as Happ.
  unfold mutateForEach, mutateForEachOver, initialVars in *.
  destruct (mutateSpecs E (mutateElements E) (foreach f) _ w) as [[r|s] w']; simpl in *.
  - destruct (Hret r eq_refl) as (msg & cause & ->).
    unfold buildRuleResponse. simpl. split_and!; done.
  - destruct (Happ s eq_refl) as (Hc & _). simpl in Hc.
    unfold forEachResponse, buildRuleResponse in *. rewrite Hc.
    destruct (foreach f) as [|fe rest]; simpl in *.
    + split_and!; done.
    + destruct (decide (length (Targets (rule f)) ≠ 0)); split_and!; done.
Qed.

Lemma rule_response_of_evaluation_witness :
  responseMessage (buildRuleResponse Examples.addLabels
    (mutateForEach Examples.demo (Examples.mutatorOf []) Examples.admission).1
    Examples.podInfo) = "0 elements processed".
Proof.
  refine (proj1 (proj2 (proj1 (proj2 (rule_response_of_evaluation Examples.demo
    (Examples.mutatorOf []) Examples.admission Examples.podInfo)) _))).
  reflexivity.
Defined.

(** A Pass outcome of a rule with a target: the count is not in the
    message, and the target is attached. *)
Example rule_response_with_target :
  let f := {| rule := NestedExamples.targeted; foreach := [Examples.containers];
              resource := Examples.podInfo; nesting := 0 |} in
  let resp := buildRuleResponse (rule f) (mutateForEach Examples.demo f Examples.admission).1
                Examples.podInfo in
  responseMessage resp = "mutated Pod/web in namespace prod"
  ∧ responsePatches resp = ["add /metadata/labels/nginx true";
                            "add /metadata/labels/sidecar true"]
  ∧ targetGVR <$> responsePatchedTarget resp
    = Some {| Group := ""; Version := "v1"; Resource := "pods" |}.
Proof. vm_compute. done. Qed.
